(** * ESPHome solenoid switch: configuration validation and code generation

    A shallow embedding of [components/solenoid/switch/__init__.py]: the
    two configuration checks, [CONFIG_SCHEMA] and [to_code], over
    configurations represented as finite maps from option names to YAML
    values.  The ESPHome validators the file calls ([cv.boolean],
    [cv.int_range], [cv.enum], [cv.use_id], ...) are written out after
    their Python definitions; the pieces of ESPHome and of Python that
    depend on Unicode tables, on number parsing or on global state are
    gathered in the class [Env].  The runtime driver is not part of the
    Python sources; its DC-latching policy is modelled in [Module Driver]
    from the design document. *)

From Stdlib Require Import ZArith QArith String Ascii List Bool Lia.
From stdpp Require Import base option list strings gmap fin_maps.
Import ListNotations.

Set Warnings "-register-all".

(** ** Values of a configuration *)

(** C++ classes the identifiers of a configuration are declared with. *)
Inductive cpp_type := FloatOutput | BinaryOutput | Switch | SolenoidSwitch.

Definition cpp_type_eqb (a b : cpp_type) : bool :=
  match a, b with
  | FloatOutput, FloatOutput | BinaryOutput, BinaryOutput
  | Switch, Switch | SolenoidSwitch, SolenoidSwitch => true
  | _, _ => false
  end.

(** [solenoid_ns.enum("SolenoidType")] and the members the file names. *)
Inductive SolenoidType :=
  | SOLENOID_TYPE_DC_LATCHING
  | SOLENOID_TYPE_AC
  | SOLENOID_TYPE_DC.

(** A YAML value before validation, or the object a validator puts in its
    place: [VID] is [core.ID], [VEnum] is a [str] carrying [enum_value],
    [VTimePeriodMilliseconds] is [core.TimePeriodMilliseconds].  Floats
    are exact fractions. *)
Inductive value :=
  | VNone
  | VBool (b : bool)
  | VInt (n : Z)
  | VFloat (q : Q)
  | VStr (s : string)
  | VList (items : list value)
  | VDict (items : list (string * value))
  | VLambda (body : string)
  | VID (name : option string) (is_declaration : bool) (type : cpp_type)
  | VEnum (s : string) (enum_value : SolenoidType)
  | VTimePeriodMilliseconds (ms : Z).

(** ** Outcomes *)

(** What a validator written with [cv] may do: return, or raise
    [cv.Invalid]. *)
Inductive checked (A : Type) :=
  | Valid (a : A)
  | Bad (msg : string).
Arguments Valid {A} a.
Arguments Bad {A} msg.

(** The Python code of the component can also raise [KeyError], by
    subscripting a configuration with a name it does not hold, and
    [TypeError], by looping over a value that is not iterable. *)
Inductive exception :=
  | Invalid (msg : string)
  | KeyError (key : string)
  | TypeError (msg : string).

Inductive result (A : Type) :=
  | Ok (a : A)
  | Raise (e : exception).
Arguments Ok {A} a.
Arguments Raise {A} e.

Definition bind {A B} (r : result A) (k : A → result B) : result B :=
  match r with
  | Ok a => k a
  | Raise e => Raise e
  end.

Definition cbind {A B} (r : checked A) (k : A → checked B) : checked B :=
  match r with
  | Valid a => k a
  | Bad m => Bad m
  end.

Definition of_checked {A} (c : checked A) : result A :=
  match c with
  | Valid a => Ok a
  | Bad m => Raise (Invalid m)
  end.

Notation "'do' x <- e ; k" := (bind e (fun x => k))
  (at level 10, x name, e at level 100, k at level 200).
Notation "'check' x <- e ; k" := (cbind e (fun x => k))
  (at level 10, x name, e at level 100, k at level 200).

Definition is_invalid {A} (r : result A) : Prop :=
  ∃ msg, r = Raise (Invalid msg).

(** ** Configurations as dictionaries *)

Abbreviation config := (gmap string value).

(** [key in config] *)
Definition contains (c : config) (key : string) : bool :=
  match c !! key with Some _ => true | None => false end.

(** [config[key]] *)
Definition getitem (c : config) (key : string) : result value :=
  match c !! key with
  | Some v => Ok v
  | None => Raise (KeyError key)
  end.

(** Python's [==] against a string literal: only a [str] (or an instance of
    a subclass, as [EnumValue] strings are) can be equal to it. *)
Definition eq_str (v : value) (lit : string) : bool :=
  match v with
  | VStr s | VEnum s _ => String.eqb s lit
  | _ => false
  end.

(** Python's [== True] and [== False]: [bool] is a subclass of [int], and
    numbers compare by value. *)
Definition eq_bool (v : value) (lit : bool) : bool :=
  match v with
  | VBool b => Bool.eqb b lit
  | VInt n => Z.eqb n (if lit then 1 else 0)
  | VFloat q => Qeq_bool q (if lit then 1 else 0)
  | _ => false
  end.

(** ** Names of the options *)

Definition CONF_OUTPUT_ID : string := "output_id".
Definition CONF_INTERLOCK : string := "interlock".
Definition CONF_PIN_A : string := "pin_a".
Definition CONF_PIN_B : string := "pin_b".
Definition CONF_INVERTED : string := "inverted".
Definition CONF_SETUP_PRIORITY : string := "setup_priority".

Definition CONF_ENERGISE_DURATION_MS : string := "energise_duration_ms".
Definition CONF_ENERGISE_POWER_PERCENT : string := "energise_power_percent".
Definition CONF_HOLD_POWER_PERCENT : string := "hold_power_percent".
Definition CONF_SOLENOID_TYPE : string := "solenoid_type".
Definition CONF_INTERLOCK_WAIT_TIME : string := "interlock_wait_time".
Definition CONF_BRAKE_IS_HIGH : string := "brake_is_high".
Definition CONF_BRIDGE_ENABLE_PIN : string := "h_bridge_enable_pin".
Definition CONF_DC_LATCH_REDO_COUNT : string := "dc_latch_redo_count".
Definition CONF_DC_LATCH_REDO_INTERVAL_MS : string := "dc_latch_redo_interval_ms".
Definition CONF_USING_HALF_BRIDGE : string := "using_half_bridge".

Definition SOLENOID_TYPE_OPTIONS : list (string * SolenoidType) :=
  [ ("DC_LATCHING", SOLENOID_TYPE_DC_LATCHING);
    ("AC", SOLENOID_TYPE_AC);
    ("DC", SOLENOID_TYPE_DC) ].

(** ** The two checks of the component *)

Definition validate_dc_latching_solenoid (config : gmap string value)
  : result (gmap string value) :=
  do ty <- getitem config CONF_SOLENOID_TYPE;
  if eq_str ty "DC_LATCHING" then
    do hb <- getitem config CONF_USING_HALF_BRIDGE;
    if eq_bool hb true then
      Raise (Invalid "DC Latching Solenoid can't use a half-bridge as it requires a full h-bridge in order to reverse pulse polarity.")
    else if negb (contains config CONF_PIN_B) then
      Raise (Invalid ("DC Latching Solenoid requires " +:+ CONF_PIN_B +:+ " to be defined."))
    else Ok config
  else Ok config.

(** [key in config and config[key] == lit]: the subscript is only reached
    when the name is present, so it cannot raise. *)
Definition present_and_eq (c : config) (key : string) (lit : bool) : bool :=
  match c !! key with
  | Some v => eq_bool v lit
  | None => false
  end.

Definition validate_pin_b_and_half_bridge_combo (config : gmap string value)
  : result (gmap string value) :=
  if present_and_eq config CONF_USING_HALF_BRIDGE true
     && contains config CONF_PIN_B then
    Raise (Invalid ("Cannot be using a half-bridge AND have " +:+ CONF_PIN_B +:+ " defined. Choose one or the other please."))
  else if present_and_eq config CONF_USING_HALF_BRIDGE false
          && negb (contains config CONF_PIN_B) then
    Raise (Invalid ("Must be either using a half-bridge OR have " +:+ CONF_PIN_B +:+ " defined. Choose only one of the two please."))
  else Ok config.

(** ** The environment: Python and ESPHome

    What the validators need from outside: the case maps of [str], the
    parsers [int(s, base)] and [str(x)], ESPHome's check of identifier
    names (it reads the list of loaded integrations), the validators of
    percentages, time periods and floats, and the schema every switch
    starts from. *)

Inductive marker :=
  | Required
  | Optional (default : option value).

(** [cv.GenerateID(key)] is [Optional(key, default=lambda: None)]. *)
Definition GenerateID : marker := Optional (Some VNone).

Record field := Field {
  marker_of : marker;
  validator_of : value → checked value
}.

(** A dictionary schema with the checks registered by [add_extra], which
    run on the validated dictionary. *)
Record Schema := MkSchema {
  schema : gmap string field;
  extra_schemas : list (gmap string value → checked (gmap string value))
}.

Class Env := {
  str_lower : string → string;
  str_upper : string → string;
  py_int : string → Z → option Z;
  py_str : value → string;
  validate_id_name : value → checked string;
  percentage : value → checked value;
  positive_time_period_milliseconds : value → checked value;
  float_ : value → checked value;
  switch_schema : cpp_type → Schema
}.

Section Validation.
Context {E : Env}.

(** ** Validators of [esphome.config_validation] *)

Definition check_not_templatable (v : value) : checked value :=
  match v with
  | VLambda _ => Bad "This option is not templatable!"
  | _ => Valid v
  end.

Definition string_strict (v : value) : checked string :=
  check _ <- check_not_templatable v;
  match v with
  | VStr s | VEnum s _ => Valid s
  | _ => Bad "Must be string, did you forget putting quotes around the value?"
  end.

Definition string_ (v : value) : checked string :=
  check _ <- check_not_templatable v;
  match v with
  | VDict _ | VList _ => Bad "string value cannot be dictionary or list."
  | VBool _ => Bad "Auto-converted this value to boolean, please wrap the value in quotes."
  | VStr s | VEnum s _ => Valid s
  | VNone => Bad "string value is None."
  | _ => Valid (py_str v)
  end.

Definition boolean (v : value) : checked value :=
  match v with
  | VBool _ => Valid v
  | VStr s | VEnum s _ =>
      let s := str_lower s in
      if bool_decide (s ∈ ["true"; "yes"; "on"; "enable"]) then Valid (VBool true)
      else if bool_decide (s ∈ ["false"; "no"; "off"; "disable"]) then Valid (VBool false)
      else Bad "Expected boolean value. Please use 'true' or 'false'"
  | _ => Bad "Expected boolean value. Please use 'true' or 'false'"
  end.

(** [int(value) == value] for a float *)
Definition is_integral (q : Q) : bool := Pos.eqb (Qden (Qred q)) 1.

Definition int_ (v : value) : checked value :=
  check _ <- check_not_templatable v;
  match v with
  | VBool _ | VInt _ => Valid v
  | VFloat q =>
      if is_integral q then Valid (VInt (Qnum (Qred q)))
      else Bad "This option only accepts integers with no fractional part."
  | _ =>
      check s <- string_strict v;
      let s := str_lower s in
      let base := if String.prefix "0x" s then 16%Z else 10%Z in
      match py_int s base with
      | Some n => Valid (VInt n)
      | None => Bad "Expected integer, but cannot parse the value as an integer"
      end
  end.

(** [vol.Range(min, max)], both ends included; a value that has no order
    with an [int] makes the comparison raise [TypeError], which [Range]
    turns into [Invalid]. *)
Definition Range (min max : Z) (v : value) : checked value :=
  let cmp (ge_min le_max : bool) :=
    if negb ge_min then Bad "value must be at least min"
    else if negb le_max then Bad "value must be at most max"
    else Valid v in
  match v with
  | VInt n => cmp (min <=? n)%Z (n <=? max)%Z
  | VBool b => cmp (min <=? Z.b2z b)%Z (Z.b2z b <=? max)%Z
  | VFloat q => cmp (Qle_bool (inject_Z min) q) (Qle_bool q (inject_Z max))
  | _ => Bad "invalid value"
  end.

Definition int_range (min max : Z) (v : value) : checked value :=
  check n <- int_ v; Range min max n.

(** [str.replace(old, new)] for one-character strings *)
Fixpoint replace (old new : ascii) (s : string) : string :=
  match s with
  | EmptyString => EmptyString
  | String c rest =>
      String (if Ascii.eqb c old then new else c) (replace old new rest)
  end.

Fixpoint mapping_get {A} (mapping : list (string * A)) (key : string) : option A :=
  match mapping with
  | [] => None
  | (k, a) :: rest => if String.eqb k key then Some a else mapping_get rest key
  end.

(** [cv.one_of] over the given values, called with [upper=True] *)
Definition one_of_upper (values : list string) (v : value) : checked string :=
  check s <- string_ v;
  let s := replace " " " " s in
  let s := str_upper s in
  if bool_decide (s ∈ values) then Valid s
  else Bad "Unknown value, valid options are the names of the enum.".

(** [cv.enum(mapping, upper=True)] *)
Definition enum (mapping : list (string * SolenoidType)) (v : value) : checked value :=
  check s <- one_of_upper (map fst mapping) v;
  match mapping_get mapping s with
  | Some e => Valid (VEnum s e)
  | None => Bad "Unknown value"  (* not reached: [s] is a key of [mapping] *)
  end.

Definition use_id (type : cpp_type) (v : value) : checked value :=
  check _ <- check_not_templatable v;
  match v with
  | VNone => Valid (VID None false type)
  | VID _ false t =>
      if cpp_type_eqb t type then Valid v
      else check s <- validate_id_name v; Valid (VID (Some s) false type)
  | _ => check s <- validate_id_name v; Valid (VID (Some s) false type)
  end.

Definition declare_id (type : cpp_type) (v : value) : checked value :=
  check _ <- check_not_templatable v;
  match v with
  | VNone => Valid (VID None true type)
  | _ => check s <- validate_id_name v; Valid (VID (Some s) true type)
  end.

Fixpoint validate_each (user : value → checked value) (items : list value)
  : checked (list value) :=
  match items with
  | [] => Valid []
  | x :: rest =>
      check y <- user x;
      check ys <- validate_each user rest;
      Valid (y :: ys)
  end.

Definition ensure_list (user : value → checked value) (v : value) : checked value :=
  check _ <- check_not_templatable v;
  match v with
  | VNone | VDict [] => Valid (VList [])
  | VList items => check ys <- validate_each user items; Valid (VList ys)
  | _ => check y <- user v; Valid (VList [y])
  end.

(** ** Dictionary schemas *)

Definition default_of (f : field) : option value :=
  match marker_of f with
  | Optional d => d
  | Required => None
  end.

(** The defaults of the options the configuration does not give are put
    in before anything is validated, so they pass through the validator
    of their option like a given value. *)
Definition with_defaults (d : gmap string field) (c : gmap string value)
  : gmap string value :=
  c ∪ omap default_of d.

Definition validate_item (d : gmap string field) (key : string) (v : value)
  : checked value :=
  match d !! key with
  | Some f => validator_of f v
  | None => Bad "extra keys not allowed"
  end.

Definition item_error (d : gmap string field) (kv : string * value)
  : option string :=
  match validate_item d kv.1 kv.2 with
  | Bad m => Some m
  | Valid _ => None
  end.

Definition required_error (c : gmap string value) (kf : string * field)
  : option string :=
  match marker_of kf.2, c !! kf.1 with
  | Required, None => Some "required key not provided"
  | _, _ => None
  end.

Definition validated_item (d : gmap string field) (key : string) (v : value)
  : option value :=
  match validate_item d key v with
  | Valid v' => Some v'
  | Bad _ => None
  end.

(** Validation of a dictionary.  voluptuous gathers every error in one
    [MultipleInvalid]; the first one stands for them here. *)
Definition validate_mapping (d : gmap string field) (c : gmap string value)
  : checked (gmap string value) :=
  let kv := with_defaults d c in
  match omap (item_error d) (map_to_list kv)
        ++ omap (required_error kv) (map_to_list d) with
  | [] => Valid (map_imap (validated_item d) kv)
  | m :: _ => Bad m
  end.

Fixpoint run_extras (extras : list (gmap string value → checked (gmap string value)))
  (c : gmap string value) : checked (gmap string value) :=
  match extras with
  | [] => Valid c
  | f :: rest => check c' <- f c; run_extras rest c'
  end.

(** Calling a schema on a configuration. *)
Definition call_schema (S : Schema) (c : gmap string value)
  : checked (gmap string value) :=
  check out <- validate_mapping (schema S) c;
  run_extras (extra_schemas S) out.

(** [S.extend(d)]: the options of [d] replace those of the same name, and
    the extra checks of [S] are kept. *)
Definition extend (S : Schema) (d : gmap string field) : Schema :=
  MkSchema (d ∪ schema S) (extra_schemas S).

(** [cv.All(validators)]: each validator receives what the one before
    returned. *)
Fixpoint All (validators : list (gmap string value → result (gmap string value)))
  (c : gmap string value) : result (gmap string value) :=
  match validators with
  | [] => Ok c
  | f :: rest => do c' <- f c; All rest c'
  end.

Definition COMPONENT_SCHEMA : Schema :=
  MkSchema {[ CONF_SETUP_PRIORITY := Field (Optional None) float_ ]} [].

(** ** The schema of the component *)

Definition solenoid_options : list (string * field) :=
  [ (CONF_OUTPUT_ID, Field GenerateID (declare_id SolenoidSwitch));
    (CONF_PIN_A, Field Required (use_id FloatOutput));
    (CONF_PIN_B, Field (Optional None) (use_id BinaryOutput));
    (CONF_BRIDGE_ENABLE_PIN, Field (Optional None) (use_id BinaryOutput));
    (CONF_ENERGISE_DURATION_MS, Field Required (int_range 10 3000));
    (CONF_DC_LATCH_REDO_COUNT,
      Field (Optional (Some (VInt 3))) (int_range 1 5));
    (CONF_DC_LATCH_REDO_INTERVAL_MS,
      Field (Optional (Some (VInt 500))) (int_range 500 3000));
    (CONF_ENERGISE_POWER_PERCENT,
      Field (Optional (Some (VStr "95%"))) percentage);
    (CONF_HOLD_POWER_PERCENT,
      Field (Optional (Some (VStr "55%"))) percentage);
    (CONF_SOLENOID_TYPE, Field Required (enum SOLENOID_TYPE_OPTIONS));
    (CONF_BRAKE_IS_HIGH, Field Required boolean);
    (CONF_INVERTED, Field (Optional (Some (VBool false))) boolean);
    (CONF_USING_HALF_BRIDGE, Field (Optional (Some (VBool false))) boolean);
    (CONF_INTERLOCK, Field (Optional None) (ensure_list (use_id Switch)));
    (CONF_INTERLOCK_WAIT_TIME,
      Field (Optional (Some (VStr "0ms"))) positive_time_period_milliseconds) ].

Definition solenoid_schema : Schema :=
  extend (extend (switch_schema SolenoidSwitch) (list_to_map solenoid_options))
         (schema COMPONENT_SCHEMA).

Definition CONFIG_SCHEMA : gmap string value → result (gmap string value) :=
  All [ (λ c, of_checked (call_schema solenoid_schema c));
        validate_dc_latching_solenoid;
        validate_pin_b_and_half_bridge_combo ].

End Validation.

(** ** Code generation *)

(** Expressions handed to the generated C++: a configuration value, the
    variable [cg.get_variable] resolves an identifier to, or a list. *)
Inductive expression :=
  | Literal (v : value)
  | VariableOf (id : value)
  | ListOf (es : list expression).

(** A generated statement: a call of a method of the new switch, or what
    ESPHome's own helpers emit. *)
Inductive statement :=
  | Core (helper : string)
  | Call (method : string) (args : list expression).

(** [cg.add] appends to the statements generated so far. *)
Definition add (code : list statement) (s : statement) : list statement :=
  code ++ [s].

Definition get_variable (id : value) : expression := VariableOf id.

(** The values a [for] loop over [v] goes through. *)
Definition iterate (v : value) : result (list value) :=
  match v with
  | VList items => Ok items
  | VDict items => Ok (map (λ kv, VStr kv.1) items)
  | VStr s | VEnum s _ =>
      Ok (map (λ c, VStr (String c EmptyString)) (list_ascii_of_string s))
  | _ => Raise (TypeError "object is not iterable")
  end.

Definition to_code (config : gmap string value) : result (list statement) :=
  let code := add [] (Core "switch.new_switch") in
  let code := add code (Core "cg.register_component") in
  do pin_a <- getitem config CONF_PIN_A;
  let code := add code (Call "connect_a_pin" [get_variable pin_a]) in
  do code <-
    (if contains config CONF_PIN_B then
       do pin_b <- getitem config CONF_PIN_B;
       Ok (add code (Call "connect_b_pin" [get_variable pin_b]))
     else Ok code);
  do code <-
    (if contains config CONF_BRIDGE_ENABLE_PIN then
       do pin_en <- getitem config CONF_BRIDGE_ENABLE_PIN;
       Ok (add code (Call "connect_enable_pin" [get_variable pin_en]))
     else Ok code);
  do v <- getitem config CONF_ENERGISE_DURATION_MS;
  let code := add code (Call "set_energise_duration_ms" [Literal v]) in
  do v <- getitem config CONF_DC_LATCH_REDO_COUNT;
  let code := add code (Call "set_dc_latch_redo_count" [Literal v]) in
  do v <- getitem config CONF_DC_LATCH_REDO_INTERVAL_MS;
  let code := add code (Call "set_dc_latch_redo_interval" [Literal v]) in
  do v <- getitem config CONF_ENERGISE_POWER_PERCENT;
  let code := add code (Call "set_energise_power_percent" [Literal v]) in
  do v <- getitem config CONF_HOLD_POWER_PERCENT;
  let code := add code (Call "set_hold_power_percent" [Literal v]) in
  do v <- getitem config CONF_SOLENOID_TYPE;
  let code := add code (Call "set_solenoid_type" [Literal v]) in
  do v <- getitem config CONF_BRAKE_IS_HIGH;
  let code := add code (Call "set_brake" [Literal v]) in
  do v <- getitem config CONF_INVERTED;
  let code := add code (Call "set_inverted" [Literal v]) in
  do v <- getitem config CONF_USING_HALF_BRIDGE;
  let code := add code (Call "set_half_bridge" [Literal v]) in
  if contains config CONF_INTERLOCK then
    do locks <- getitem config CONF_INTERLOCK;
    do its <- iterate locks;
    let interlock := map get_variable its in
    let code := add code (Call "set_interlock" [ListOf interlock]) in
    do v <- getitem config CONF_INTERLOCK_WAIT_TIME;
    Ok (add code (Call "set_interlock_wait_time" [Literal v]))
  else Ok code.

(** ** An environment for plain ASCII configurations

    Enough of Python and ESPHome to run the schema on configurations
    written with ASCII letters, decimal numbers and the units [ms], [s]
    and [min]. *)

Module AsciiEnv.

Definition in_range (lo hi : nat) (c : ascii) : bool :=
  (lo <=? nat_of_ascii c)%nat && (nat_of_ascii c <=? hi)%nat.

Definition upper_char (c : ascii) : ascii :=
  if in_range 97 122 c then ascii_of_nat (nat_of_ascii c - 32) else c.

Definition lower_char (c : ascii) : ascii :=
  if in_range 65 90 c then ascii_of_nat (nat_of_ascii c + 32) else c.

Fixpoint map_string (f : ascii → ascii) (s : string) : string :=
  match s with
  | EmptyString => EmptyString
  | String c rest => String (f c) (map_string f rest)
  end.

Definition digit_of (base : Z) (c : ascii) : option Z :=
  let d :=
    if in_range 48 57 c then Some (Z.of_nat (nat_of_ascii c - 48))
    else if in_range 97 102 c then Some (Z.of_nat (nat_of_ascii c - 87))
    else None in
  match d with
  | Some n => if (n <? base)%Z then Some n else None
  | None => None
  end.

Fixpoint digits (base acc : Z) (s : string) : option Z :=
  match s with
  | EmptyString => Some acc
  | String c rest =>
      match digit_of base c with
      | Some d => digits base (base * acc + d)%Z rest
      | None => None
      end
  end.

Definition number (base : Z) (s : string) : option Z :=
  match s with
  | EmptyString => None
  | _ => digits base 0 s
  end.

Definition parse_int (s : string) (base : Z) : option Z :=
  let unsigned (s : string) :=
    match s with
    | String "0" (String "x" rest) =>
        if (base =? 16)%Z then number base rest else None
    | _ => number base s
    end in
  match s with
  | String "-" rest => Z.opp <$> unsigned rest
  | String "+" rest => unsigned rest
  | _ => unsigned s
  end.

Fixpoint digit_string (fuel : nat) (n : Z) (acc : string) : string :=
  match fuel with
  | O => acc
  | S fuel =>
      let acc := String (ascii_of_nat (48 + Z.to_nat (n mod 10))) acc in
      if (n <? 10)%Z then acc else digit_string fuel (n / 10)%Z acc
  end.

Definition str_of_int (n : Z) : string :=
  let body := digit_string (S (Z.to_nat (Z.log2 (Z.abs n)))) (Z.abs n) "" in
  if (n <? 0)%Z then String "-" body else body.

Definition str (v : value) : string :=
  match v with
  | VInt n => str_of_int n
  | VID (Some name) _ _ => name
  | VTimePeriodMilliseconds ms => str_of_int ms +:+ "ms"
  | VStr s | VEnum s _ => s
  | _ => "<object>"
  end.

Definition id_char (c : ascii) : bool :=
  in_range 48 57 c || in_range 65 90 c || in_range 97 122 c || Ascii.eqb c "_".

Definition id_name (v : value) : checked string :=
  match v with
  | VStr (String c rest as s) =>
      if forallb id_char (list_ascii_of_string s) && negb (in_range 48 57 c)
      then Valid s
      else Bad "Invalid ID"
  | _ => Bad "ID must be a non-empty string"
  end.

(** Splits [s] where its leading decimal digits end. *)
Fixpoint split_digits (s : string) : string * string :=
  match s with
  | String c rest =>
      if in_range 48 57 c then
        let '(ds, unit) := split_digits rest in (String c ds, unit)
      else (EmptyString, s)
  | EmptyString => (EmptyString, EmptyString)
  end.

Definition percent (v : value) : checked value :=
  let unit_interval (q : Q) :=
    if Qle_bool 0 q && Qle_bool q 1 then Valid (VFloat q)
    else Bad "Percentage must be between 0% and 100%." in
  match v with
  | VFloat q => unit_interval q
  | VInt n => unit_interval (inject_Z n)
  | VStr s =>
      match split_digits s with
      | (ds, "%"%string) =>
          match number 10 ds with
          | Some n => unit_interval (n # 100)
          | None => Bad "invalid number"
          end
      | _ => Bad "invalid number"
      end
  | _ => Bad "invalid number"
  end.

Definition time_period_ms (v : value) : checked value :=
  match v with
  | VStr s =>
      let '(ds, unit) := split_digits s in
      match number 10 ds with
      | Some n =>
          if String.eqb unit "ms" then Valid (VTimePeriodMilliseconds n)
          else if String.eqb unit "s" then Valid (VTimePeriodMilliseconds (1000 * n))
          else if String.eqb unit "min" then Valid (VTimePeriodMilliseconds (60000 * n))
          else Bad "Expected time period with unit"
      | None => Bad "Expected time period with unit"
      end
  | _ => Bad "Expected string for time period with unit."
  end.

Definition to_float (v : value) : checked value :=
  match v with
  | VFloat q => Valid v
  | VInt n => Valid (VFloat (inject_Z n))
  | VStr s =>
      match parse_int s 10 with
      | Some n => Valid (VFloat (inject_Z n))
      | None => Bad "expected float"
      end
  | _ => Bad "expected float"
  end.

(** Python and ESPHome without the schema of switches. *)
Definition base : Env := {|
  str_lower := map_string lower_char;
  str_upper := map_string upper_char;
  py_int := parse_int;
  py_str := str;
  validate_id_name := id_name;
  percentage := percent;
  positive_time_period_milliseconds := time_period_ms;
  float_ := to_float;
  switch_schema := λ _, MkSchema ∅ []
|}.

(** The entity check of ESPHome: a switch needs a name or an identifier. *)
Definition entity_base_validator (c : gmap string value)
  : checked (gmap string value) :=
  if contains c "name" || contains c "id" then Valid c
  else Bad "At least one of 'id:' or 'name:' is required!".

Definition name_validator (v : value) : checked value :=
  match @string_ base v with
  | Valid s => Valid (VStr s)
  | Bad m => Bad m
  end.

Definition switches (class : cpp_type) : Schema :=
  MkSchema
    (list_to_map
       [ ("id"%string, Field GenerateID (@declare_id base class));
         ("name"%string, Field (Optional None) name_validator);
         (CONF_INVERTED, Field (Optional None) (@boolean base)) ])
    [ entity_base_validator ].

Definition env : Env := {|
  str_lower := map_string lower_char;
  str_upper := map_string upper_char;
  py_int := parse_int;
  py_str := str;
  validate_id_name := id_name;
  percentage := percent;
  positive_time_period_milliseconds := time_period_ms;
  float_ := to_float;
  switch_schema := switches
|}.

End AsciiEnv.

(** ** Example configurations *)

Definition latching_valve : gmap string value :=
  list_to_map
    [ ("name"%string, VStr "Front lawn");
      (CONF_PIN_A, VStr "bridge_a");
      (CONF_PIN_B, VStr "bridge_b");
      (CONF_ENERGISE_DURATION_MS, VInt 20);
      (CONF_SOLENOID_TYPE, VStr "dc_latching");
      (CONF_BRAKE_IS_HIGH, VBool false) ].

Definition ac_valve : gmap string value :=
  list_to_map
    [ ("name"%string, VStr "Back lawn");
      (CONF_PIN_A, VStr "fet_a");
      (CONF_USING_HALF_BRIDGE, VStr "yes");
      (CONF_ENERGISE_DURATION_MS, VStr "0x3E8");
      (CONF_SOLENOID_TYPE, VStr "AC");
      (CONF_BRAKE_IS_HIGH, VBool true);
      (CONF_INTERLOCK, VList [VStr "front_lawn"]);
      (CONF_INTERLOCK_WAIT_TIME, VStr "2s") ].

(** ** Vocabulary of the statements *)

Section Vocabulary.
Context {E : Env}.

(** The option names the component declares. *)
Definition solenoid_names : list string := solenoid_options.*1.

(** An extra check of the switch schema leaves the options of the
    component as it found them. *)
Definition keeps_solenoid_options
  (f : gmap string value → checked (gmap string value)) : Prop :=
  ∀ c c', f c = Valid c' → ∀ k, k ∈ solenoid_names → c' !! k = c !! k.

Definition entity_checks_keep : Prop :=
  Forall keeps_solenoid_options (extra_schemas (switch_schema SolenoidSwitch)).

(** The configuration asks for a half-bridge: it gives [using_half_bridge]
    a value that reads as true. *)
Definition half_bridge_requested (c : gmap string value) : bool :=
  match c !! CONF_USING_HALF_BRIDGE with
  | Some v =>
      match boolean v with
      | Valid (VBool true) => true
      | _ => false
      end
  | None => false
  end.

End Vocabulary.

(** The integer a validated value stands for; [True] and [False] are the
    integers 1 and 0. *)
Definition int_value (v : value) : option Z :=
  match v with
  | VInt n => Some n
  | VBool b => Some (Z.b2z b)
  | _ => None
  end.

(** The calls of one method among the generated statements. *)
Definition calls (method : string) (code : list statement) : list statement :=
  List.filter (λ s, match s with
                    | Call m _ => String.eqb m method
                    | Core _ => false
                    end) code.

(** A validated DC-latching configuration that asks for a half-bridge. *)
Definition latching_on_half_bridge : gmap string value :=
  list_to_map
    [ (CONF_SOLENOID_TYPE, VEnum "DC_LATCHING" SOLENOID_TYPE_DC_LATCHING);
      (CONF_USING_HALF_BRIDGE, VBool true);
      (CONF_PIN_A, VID (Some "bridge_a") false FloatOutput) ].

(** A configuration with a half-bridge and a second pin at once. *)
Definition half_bridge_with_pin_b : gmap string value :=
  <[CONF_PIN_B := VStr "bridge_b"]> ac_valve.





Definition unknown_type_valve : gmap string value :=
  <[CONF_SOLENOID_TYPE := VStr "latching"]> latching_valve.

Definition no_type_valve : gmap string value :=
  delete CONF_SOLENOID_TYPE latching_valve.

Definition no_pin_a_valve : gmap string value :=
  delete CONF_PIN_A latching_valve.

(** What [CONFIG_SCHEMA] makes of [latching_valve] and of [ac_valve] in
    the ASCII environment. *)
Definition validated_latching_valve : gmap string value :=
  list_to_map
    [ ("id"%string, VID None true SolenoidSwitch);
      ("name"%string, VStr "Front lawn");
      (CONF_OUTPUT_ID, VID None true SolenoidSwitch);
      (CONF_PIN_A, VID (Some "bridge_a") false FloatOutput);
      (CONF_PIN_B, VID (Some "bridge_b") false BinaryOutput);
      (CONF_ENERGISE_DURATION_MS, VInt 20);
      (CONF_DC_LATCH_REDO_COUNT, VInt 3);
      (CONF_DC_LATCH_REDO_INTERVAL_MS, VInt 500);
      (CONF_ENERGISE_POWER_PERCENT, VFloat 0.95);
      (CONF_HOLD_POWER_PERCENT, VFloat 0.55);
      (CONF_SOLENOID_TYPE, VEnum "DC_LATCHING" SOLENOID_TYPE_DC_LATCHING);
      (CONF_BRAKE_IS_HIGH, VBool false);
      (CONF_INVERTED, VBool false);
      (CONF_USING_HALF_BRIDGE, VBool false);
      (CONF_INTERLOCK_WAIT_TIME, VTimePeriodMilliseconds 0) ].

Definition validated_ac_valve : gmap string value :=
  list_to_map
    [ ("id"%string, VID None true SolenoidSwitch);
      ("name"%string, VStr "Back lawn");
      (CONF_OUTPUT_ID, VID None true SolenoidSwitch);
      (CONF_PIN_A, VID (Some "fet_a") false FloatOutput);
      (CONF_ENERGISE_DURATION_MS, VInt 1000);
      (CONF_DC_LATCH_REDO_COUNT, VInt 3);
      (CONF_DC_LATCH_REDO_INTERVAL_MS, VInt 500);
      (CONF_ENERGISE_POWER_PERCENT, VFloat 0.95);
      (CONF_HOLD_POWER_PERCENT, VFloat 0.55);
      (CONF_SOLENOID_TYPE, VEnum "AC" SOLENOID_TYPE_AC);
      (CONF_BRAKE_IS_HIGH, VBool true);
      (CONF_INVERTED, VBool false);
      (CONF_USING_HALF_BRIDGE, VBool true);
      (CONF_INTERLOCK, VList [VID (Some "front_lawn") false Switch]);
      (CONF_INTERLOCK_WAIT_TIME, VTimePeriodMilliseconds 2000) ].

(** A valve that gives a wait time but names no interlocked switch. *)
Definition lone_wait_valve : gmap string value :=
  <[CONF_INTERLOCK_WAIT_TIME := VStr "2s"]> latching_valve.

Definition validated_lone_wait_valve : gmap string value :=
  <[CONF_INTERLOCK_WAIT_TIME := VTimePeriodMilliseconds 2000]>
    validated_latching_valve.

(** ** The DC-latching policy of the driver *)

Module Driver.

(** Modelled from the spec: the runtime driver (the C++ state machine the
    generated code configures) is not among the Python sources.  The
    definitions below follow the design document: the data model of its
    section 3, the phase timer of section 4.2 and the DC_LATCHING policy
    of section 4.4, for a switch without interlock peers and for requests
    made in a steady state. *)

Inductive SwitchState := OFF | TURNING_ON | ON | TURNING_OFF.

(** Modelled from the spec: the phases of section 3; the DC_LATCHING
    policy uses IDLE, PULSE and SETTLE. *)
Inductive Phase := IDLE | ENERGISE | HOLD | PULSE | SETTLE.

(** Modelled from the spec: the directions of the bridge adapter,
    section 4.1. *)
Inductive Direction := FORWARD | REVERSE | BRAKE | COAST.

(** Modelled from the spec: the fields of SolenoidConfig the DC_LATCHING
    policy reads. *)
Record SolenoidConfig := {
  energise_duration_ms : Z;
  dc_latch_redo_count : nat;
  dc_latch_redo_interval_ms : Z
}.

(** Modelled from the spec: the DriverState of section 3 (logical state,
    phase, phase start, remaining attempts) with the direction and duty
    last written to the bridge. *)
Record DriverState := {
  state : SwitchState;
  phase : Phase;
  phase_start : Z;
  remaining : nat;
  direction : Direction;
  duty : Z
}.


(** Modelled from the spec: the phase timer, [expired(threshold_ms)]. *)
Definition elapsed_ms (now : Z) (st : DriverState) : Z := (now - phase_start st)%Z.

Definition expired (threshold_ms now : Z) (st : DriverState) : bool :=
  (threshold_ms <=? elapsed_ms now st)%Z.

(** Modelled from the spec: the polarity of a pulse, FORWARD to turn on
    and REVERSE to turn off. *)
Definition pulse_direction (s : SwitchState) : Direction :=
  match s with
  | TURNING_OFF => REVERSE
  | _ => FORWARD
  end.

Definition target (s : SwitchState) : SwitchState :=
  match s with
  | TURNING_ON => ON
  | TURNING_OFF => OFF
  | _ => s
  end.

(** Modelled from the spec: the first pulse of a burst, at 100% duty, with
    the other attempts still to come. *)
Definition begin_burst (cfg : SolenoidConfig) (turning : SwitchState) (now : Z)
  : DriverState :=
  {| state := turning; phase := PULSE; phase_start := now;
     remaining := pred (dc_latch_redo_count cfg);
     direction := pulse_direction turning; duty := 100 |}.


Definition turn_off (cfg : SolenoidConfig) (now : Z) (st : DriverState)
  : option DriverState :=
  match state st with
  | ON => Some (begin_burst cfg TURNING_OFF now)
  | OFF | TURNING_OFF => Some st
  | TURNING_ON => None
  end.

(** Modelled from the spec: one scheduler tick of the DC_LATCHING policy.
    A pulse lasts until its timer has run [energise_duration_ms]; the
    bridge is then released to COAST, and the state is ON or OFF at once
    when that was the last attempt; otherwise the bridge coasts for
    [dc_latch_redo_interval_ms] and the next pulse starts. *)
Definition tick (cfg : SolenoidConfig) (now : Z) (st : DriverState) : DriverState :=
  match phase st with
  | PULSE =>
      if expired (energise_duration_ms cfg) now st then
        match remaining st with
        | O =>
            {| state := target (state st); phase := IDLE; phase_start := now;
               remaining := 0; direction := COAST; duty := 0 |}
        | S _ =>
            {| state := state st; phase := SETTLE; phase_start := now;
               remaining := remaining st; direction := COAST; duty := 0 |}
        end
      else st
  | SETTLE =>
      if expired (dc_latch_redo_interval_ms cfg) now st then
        {| state := state st; phase := PULSE; phase_start := now;
           remaining := pred (remaining st);
           direction := pulse_direction (state st); duty := 100 |}
      else st
  | _ => st
  end.

(** Modelled from the spec: the periodic scheduler of section 5.  The
    driver is observed at the ticks [now + period], [now + 2 period],
    ... *)
Fixpoint run (cfg : SolenoidConfig) (period : Z) (ticks : nat) (now : Z)
  (st : DriverState) : list (Z * DriverState) :=
  match ticks with
  | O => []
  | S ticks =>
      let now' := (now + period)%Z in
      let st' := tick cfg now' st in
      (now', st') :: run cfg period ticks now' st'
  end.


Definition Direction_eqb (a b : Direction) : bool :=
  match a, b with
  | FORWARD, FORWARD | REVERSE, REVERSE | BRAKE, BRAKE | COAST, COAST => true
  | _, _ => false
  end.


(** The instants at which the bridge changes direction, with the new
    direction. *)
Fixpoint bridge_changes (last : Direction) (samples : list (Z * DriverState))
  : list (Z * Direction) :=
  match samples with
  | [] => []
  | (t, st) :: rest =>
      if Direction_eqb (direction st) last then bridge_changes last rest
      else (t, direction st) :: bridge_changes (direction st) rest
  end.

(** The completed stretches of one direction: what was driven from
    [since], and for how long. *)
Fixpoint stretches (since : Z) (driven : Direction) (changes : list (Z * Direction))
  : list (Direction * Z) :=
  match changes with
  | [] => []
  | (t, d) :: rest => (driven, (t - since)%Z) :: stretches t d rest
  end.

(** The configuration of the example: three attempts of 20 ms, 500 ms
    apart. *)
Definition three_attempts : SolenoidConfig :=
  {| energise_duration_ms := 20; dc_latch_redo_count := 3;
     dc_latch_redo_interval_ms := 500 |}.



End Driver.

(** A latching valve wired without its second pin. *)
Definition latching_without_pin_b : gmap string value :=
  delete CONF_PIN_B latching_valve.

(** ** The outcome of the two checks, in closed form *)

(** The four errors the checks of the component raise. *)
Definition half_bridge_on_latching : exception :=
  Invalid "DC Latching Solenoid can't use a half-bridge as it requires a full h-bridge in order to reverse pulse polarity.".

Definition latching_needs_pin_b : exception :=
  Invalid "DC Latching Solenoid requires pin_b to be defined.".

Definition half_bridge_and_pin_b : exception :=
  Invalid "Cannot be using a half-bridge AND have pin_b defined. Choose one or the other please.".

Definition neither_half_bridge_nor_pin_b : exception :=
  Invalid "Must be either using a half-bridge OR have pin_b defined. Choose only one of the two please.".

(** What [CONFIG_SCHEMA] does with a configuration [out] that has passed
    the schema, from three facts about it: whether its type is
    DC_LATCHING, whether it uses a half-bridge, whether it has [pin_b]. *)
Definition verdict (latching half_bridge pin_b : bool) (out : gmap string value)
  : result (gmap string value) :=
  if latching then
    if half_bridge then Raise half_bridge_on_latching
    else if pin_b then Ok out
    else Raise latching_needs_pin_b
  else
    if half_bridge && pin_b then Raise half_bridge_and_pin_b
    else if negb half_bridge && negb pin_b then Raise neither_half_bridge_nor_pin_b
    else Ok out.


(** The setters of the driver, with the option each one is given. *)
Definition settings : list (string * string) :=
  [ ("set_energise_duration_ms", CONF_ENERGISE_DURATION_MS);
    ("set_dc_latch_redo_count", CONF_DC_LATCH_REDO_COUNT);
    ("set_dc_latch_redo_interval", CONF_DC_LATCH_REDO_INTERVAL_MS);
    ("set_energise_power_percent", CONF_ENERGISE_POWER_PERCENT);
    ("set_hold_power_percent", CONF_HOLD_POWER_PERCENT);
    ("set_solenoid_type", CONF_SOLENOID_TYPE);
    ("set_brake", CONF_BRAKE_IS_HIGH);
    ("set_inverted", CONF_INVERTED);
    ("set_half_bridge", CONF_USING_HALF_BRIDGE) ]%string.

(** An identifier that refers to a switch. *)
Definition is_switch_id (v : value) : Prop :=
  ∃ name, v = VID name false Switch.

(** A valve of type AC wired with neither a half-bridge nor a second
    pin, and a latching valve on a half-bridge with a second pin. *)
Definition ac_without_return : gmap string value :=
  delete CONF_USING_HALF_BRIDGE ac_valve.

Definition latching_with_both : gmap string value :=
  <[CONF_USING_HALF_BRIDGE := VBool true]> latching_valve.

(** A valve interlocked with one switch given as a bare identifier. *)
Definition single_interlock_valve : gmap string value :=
  <[CONF_INTERLOCK := VStr "front_lawn"]> ac_valve.

(** How many switches a value given for [interlock] lists: a list counts
    its items, nothing (or an empty dictionary) counts none, anything
    else is one switch. *)
Definition listed_switches (given : value) : nat :=
  match given with
  | VList items => length items
  | VNone | VDict [] => 0
  | _ => 1
  end.


Definition misspelt_valve : gmap string value :=
  <["pin_c"%string := VStr "bridge_c"]> latching_valve.

(** A valve energised at 80% and held at the default power. *)
Definition gentle_valve : gmap string value :=
  <[CONF_ENERGISE_POWER_PERCENT := VStr "80%"]> latching_valve.

Definition validated_gentle_valve : gmap string value :=
  <[CONF_ENERGISE_POWER_PERCENT := VFloat 0.80]> validated_latching_valve.

(** What the schema makes of [latching_with_both] and of
    [ac_without_return] in the ASCII environment. *)
Definition schema_latching_with_both : gmap string value :=
  <[CONF_USING_HALF_BRIDGE := VBool true]> validated_latching_valve.

Definition schema_ac_without_return : gmap string value :=
  <[CONF_USING_HALF_BRIDGE := VBool false]> validated_ac_valve.

(** * Properties *)

Section Facts.
Context {E : Env}.

(** ** Dictionary validation *)

Lemma omap_nil_Forall {A B} (f : A → option B) (l : list A) :
  omap f l = [] ↔ Forall (λ x, f x = None) l.
Proof.
  induction l as [|x l IH]; simpl.
  - split; [constructor | reflexivity].
  - destruct (f x) eqn:Hx.
    + split; [discriminate | intros H; inversion H; congruence].
    + rewrite IH. split; [by constructor | by inversion 1].
Qed.

Lemma with_defaults_lookup (d : gmap string field) (c : gmap string value) k :
  with_defaults d c !! k =
    match c !! k with
    | Some v => Some v
    | None => d !! k ≫= default_of
    end.
Proof.
  unfold with_defaults. rewrite lookup_union, lookup_omap.
  destruct (c !! k), (d !! k ≫= default_of); reflexivity.
Qed.

Lemma with_defaults_given (d : gmap string field) (c : gmap string value) k v :
  c !! k = Some v → with_defaults d c !! k = Some v.
Proof. intros H. by rewrite with_defaults_lookup, H. Qed.

Lemma validate_mapping_Valid (d : gmap string field) (c out : gmap string value) :
  validate_mapping d c = Valid out ↔
    (∀ k v, with_defaults d c !! k = Some v → is_Some (validated_item d k v))
    ∧ (∀ k f, d !! k = Some f → marker_of f = Required → is_Some (c !! k))
    ∧ out = map_imap (validated_item d) (with_defaults d c).
Proof.
  unfold validate_mapping. cbv zeta.
  set (kv := with_defaults d c).
  assert (Hitems : omap (item_error d) (map_to_list kv) = [] ↔
            ∀ k v, kv !! k = Some v → is_Some (validated_item d k v)).
  { rewrite omap_nil_Forall, Forall_forall. split.
    - intros H k v Hk. specialize (H (k, v)).
      unfold item_error, validated_item in *. simpl in H.
      destruct (validate_item d k v); [eauto |].
      discriminate H. by apply elem_of_map_to_list.
    - intros H [k v] Hk%elem_of_map_to_list. specialize (H k v Hk).
      unfold item_error, validated_item in *. simpl.
      destruct (validate_item d k v); [done | by destruct H]. }
  assert (Hreq : omap (required_error kv) (map_to_list d) = [] ↔
            ∀ k f, d !! k = Some f → marker_of f = Required → is_Some (c !! k)).
  { rewrite omap_nil_Forall, Forall_forall. split.
    - intros H k f Hk Hm. specialize (H (k, f)).
      unfold required_error in H. simpl in H. rewrite Hm in H.
      subst kv. rewrite with_defaults_lookup in H.
      destruct (c !! k); [eauto |].
      rewrite Hk in H. simpl in H. unfold default_of in H. rewrite Hm in H.
      discriminate H. by apply elem_of_map_to_list.
    - intros H [k f] Hk%elem_of_map_to_list.
      unfold required_error. simpl.
      destruct (marker_of f) eqn:Hm; [| done].
      destruct (H k f Hk Hm) as [v Hv].
      subst kv. by rewrite (with_defaults_given _ _ _ _ Hv). }
  destruct (omap (item_error d) (map_to_list kv)) as [|m ms] eqn:H1; simpl.
  - destruct (omap (required_error kv) (map_to_list d)) as [|m ms] eqn:H2.
    + split.
      * intros [= <-]. split; [by apply Hitems |]. split; [by apply Hreq | done].
      * intros (_ & _ & ->). done.
    + split; [discriminate |]. intros (_ & H & _).
      apply Hreq in H. discriminate.
  - split; [discriminate |]. intros (H & _). apply Hitems in H. discriminate.
Qed.

(** What validation leaves under a name: the validated form of the value
    given, or of the default when none is given. *)
Lemma validate_mapping_lookup (d : gmap string field) (c out : gmap string value) k :
  validate_mapping d c = Valid out →
  out !! k = with_defaults d c !! k ≫= validated_item d k.
Proof.
  intros (_ & _ & ->)%validate_mapping_Valid. apply map_lookup_imap.
Qed.

Lemma validate_mapping_item (d : gmap string field) (c out : gmap string value) k f v :
  validate_mapping d c = Valid out →
  d !! k = Some f →
  with_defaults d c !! k = Some v →
  ∃ v', validator_of f v = Valid v' ∧ out !! k = Some v'.
Proof.
  intros Hv Hd Hk.
  rewrite (validate_mapping_lookup _ _ _ k Hv), Hk. simpl.
  apply validate_mapping_Valid in Hv as (Hi & _ & _).
  destruct (Hi k v Hk) as [v' Hv'].
  unfold validated_item, validate_item in *. rewrite Hd in *.
  destruct (validator_of f v); [eauto | discriminate].
Qed.

Lemma validate_mapping_absent (d : gmap string field) (c out : gmap string value) k :
  validate_mapping d c = Valid out →
  with_defaults d c !! k = None →
  out !! k = None.
Proof.
  intros Hv Hk. by rewrite (validate_mapping_lookup _ _ _ k Hv), Hk.
Qed.

Lemma validate_mapping_required (d : gmap string field) (c out : gmap string value) k f :
  validate_mapping d c = Valid out →
  d !! k = Some f → marker_of f = Required →
  is_Some (c !! k).
Proof. intros (_ & H & _)%validate_mapping_Valid. apply H. Qed.

(** ** What the validators return *)

Lemma boolean_Valid v out : boolean v = Valid out → ∃ b, out = VBool b.
Proof.
  unfold boolean. destruct v; try discriminate.
  - intros [= <-]. eauto.
  - repeat case_bool_decide; intros [= <-]; eauto.
  - repeat case_bool_decide; intros [= <-]; eauto.
Qed.

Lemma cpp_type_eqb_eq a b : cpp_type_eqb a b = true → a = b.
Proof. by destruct a, b. Qed.

Lemma use_id_Valid type v out :
  use_id type v = Valid out → ∃ name, out = VID name false type.
Proof.
  unfold use_id, cbind, check_not_templatable.
  destruct v as [| | | | | | | |name [] t| |]; try discriminate;
    try (destruct (validate_id_name _); [intros [= <-]; eauto | discriminate]).
  - intros [= <-]. eauto.
  - destruct (cpp_type_eqb t type) eqn:Ht.
    + apply cpp_type_eqb_eq in Ht as ->. intros [= <-]. eauto.
    + destruct (validate_id_name _); [intros [= <-]; eauto | discriminate].
Qed.

Lemma validate_each_Valid user items out :
  validate_each user items = Valid out →
  Forall2 (λ x y, user x = Valid y) items out.
Proof.
  revert out. induction items as [|x items IH]; simpl; intros out.
  - intros [= <-]. constructor.
  - unfold cbind. destruct (user x) as [y|] eqn:Hy; [| discriminate].
    destruct (validate_each user items) as [ys|]; [| discriminate].
    intros [= <-]. constructor; [done | by apply IH].
Qed.

Lemma ensure_list_Valid user v out :
  ensure_list user v = Valid out → ∃ items, out = VList items.
Proof.
  unfold ensure_list, cbind, check_not_templatable.
  destruct v as [| | | | |items|[|]| | | |]; try discriminate;
    try (destruct (user _); [intros [= <-]; eauto | discriminate]);
    try (intros [= <-]; eauto).
  destruct (validate_each user items); [intros [= <-]; eauto | discriminate].
Qed.

Lemma int_Valid v out : int_ v = Valid out → is_Some (int_value out).
Proof.
  unfold int_, cbind, check_not_templatable, string_strict.
  destruct v; simpl; try discriminate;
    repeat match goal with
           | |- context [if ?x then _ else _] => destruct x
           | |- context [match py_int ?s ?b with _ => _ end] => destruct (py_int s b)
           end;
    try discriminate; intros [= <-]; simpl; eauto.
Qed.

Lemma Range_Valid min max v out n :
  Range min max v = Valid out → int_value v = Some n →
  out = v ∧ (min ≤ n ≤ max)%Z.
Proof.
  unfold Range. destruct v; try discriminate; simpl; intros H [= <-];
    repeat match type of H with
           | context [negb (?a <=? ?b)%Z] =>
               destruct (Z.leb_spec a b); simpl in H
           end; try discriminate; (split; [congruence | lia]).
Qed.

Lemma int_range_Valid min max v out :
  int_range min max v = Valid out →
  int_ v = Valid out ∧ ∃ n, int_value out = Some n ∧ (min ≤ n ≤ max)%Z.
Proof.
  unfold int_range, cbind. destruct (int_ v) as [w|] eqn:Hw; [| discriminate].
  destruct (int_Valid _ _ Hw) as [n Hn]. intros HR.
  destruct (Range_Valid _ _ _ _ _ HR Hn) as [-> Hr]. eauto.
Qed.


Lemma replace_same c s : replace c c s = s.
Proof.
  induction s as [|a s IH]; simpl; [done |]. rewrite IH.
  destruct (Ascii.eqb_spec a c); congruence.
Qed.

Lemma mapping_get_Some {A} (mapping : list (string * A)) key a :
  mapping_get mapping key = Some a → (key, a) ∈ mapping.
Proof.
  induction mapping as [|[k x] mapping IH]; simpl; [discriminate |].
  destruct (String.eqb_spec k key) as [->|].
  - intros [= ->]. apply list_elem_of_here.
  - intros H. apply list_elem_of_further. auto.
Qed.

Lemma enum_Valid v out :
  enum SOLENOID_TYPE_OPTIONS v = Valid out ↔
    ∃ s t, string_ v = Valid s
      ∧ (str_upper s, t) ∈ SOLENOID_TYPE_OPTIONS
      ∧ out = VEnum (str_upper s) t.
Proof.
  unfold enum, one_of_upper, cbind. split.
  - destruct (string_ v) as [s|]; [| discriminate].
    rewrite replace_same. case_bool_decide; [| discriminate].
    destruct (mapping_get _ _) as [t|] eqn:Ht; [| discriminate].
    intros [= <-]. exists s, t. split; [done |].
    split; [by apply mapping_get_Some | done].
  - intros (s & t & -> & Hin & ->). rewrite replace_same.
    unfold SOLENOID_TYPE_OPTIONS in *.
    repeat (apply elem_of_cons in Hin as [[= Hs <-]|Hin]; [rewrite Hs; reflexivity |]).
    by apply elem_of_nil in Hin.
Qed.

End Facts.

(** Membership of an option in the list of the component. *)
Ltac solenoid_option :=
  unfold solenoid_options;
  repeat first [apply list_elem_of_here | apply list_elem_of_further].

Section Pipeline.
Context {E : Env}.

(** ** The schema of the component, option by option *)

Lemma solenoid_names_NoDup : NoDup solenoid_names.
Proof. apply (bool_decide_unpack _). vm_compute. reflexivity. Qed.

Lemma setup_priority_not_solenoid : CONF_SETUP_PRIORITY ∉ solenoid_names.
Proof. apply (bool_decide_unpack _). vm_compute. reflexivity. Qed.

Lemma solenoid_schema_lookup k f :
  (k, f) ∈ solenoid_options → schema solenoid_schema !! k = Some f.
Proof.
  intros Hin. unfold solenoid_schema, extend, COMPONENT_SCHEMA. cbn [schema].
  assert (k ≠ CONF_SETUP_PRIORITY) as Hne.
  { intros ->. apply setup_priority_not_solenoid.
    unfold solenoid_names. apply list_elem_of_fmap. by exists (CONF_SETUP_PRIORITY, f). }
  rewrite lookup_union_r by (by apply lookup_singleton_ne).
  apply lookup_union_Some_l.
  apply elem_of_list_to_map_1; [apply solenoid_names_NoDup | done].
Qed.

Lemma solenoid_option_name k f :
  (k, f) ∈ solenoid_options → k ∈ solenoid_names.
Proof. intros H. unfold solenoid_names. apply list_elem_of_fmap. by exists (k, f). Qed.

(** ** The steps of [CONFIG_SCHEMA] *)

Lemma validate_dc_latching_solenoid_returns c out :
  validate_dc_latching_solenoid c = Ok out → out = c.
Proof.
  unfold validate_dc_latching_solenoid, bind.
  destruct (getitem c CONF_SOLENOID_TYPE) as [ty|]; [| discriminate].
  destruct (eq_str ty "DC_LATCHING"); [| congruence].
  destruct (getitem c CONF_USING_HALF_BRIDGE) as [hb|]; [| discriminate].
  destruct (eq_bool hb true); [discriminate |].
  destruct (negb (contains c CONF_PIN_B)); [discriminate | congruence].
Qed.

Lemma validate_pin_b_and_half_bridge_combo_returns c out :
  validate_pin_b_and_half_bridge_combo c = Ok out → out = c.
Proof.
  unfold validate_pin_b_and_half_bridge_combo.
  destruct (_ && _); [discriminate |].
  destruct (_ && _); [discriminate | congruence].
Qed.

Lemma CONFIG_SCHEMA_Ok raw out :
  CONFIG_SCHEMA raw = Ok out ↔
    ∃ out0, validate_mapping (schema solenoid_schema) raw = Valid out0
      ∧ run_extras (extra_schemas solenoid_schema) out0 = Valid out
      ∧ validate_dc_latching_solenoid out = Ok out
      ∧ validate_pin_b_and_half_bridge_combo out = Ok out.
Proof.
  unfold CONFIG_SCHEMA, All, call_schema, bind, cbind, of_checked. split.
  - destruct (validate_mapping _ raw) as [out0|] eqn:H0; [| discriminate].
    destruct (run_extras _ out0) as [out1|] eqn:H1; [| discriminate].
    destruct (validate_dc_latching_solenoid out1) as [out2|] eqn:H2; [| discriminate].
    destruct (validate_pin_b_and_half_bridge_combo out2) as [out3|] eqn:H3; [| discriminate].
    intros [= <-].
    apply validate_dc_latching_solenoid_returns in H2 as Heq2.
    apply validate_pin_b_and_half_bridge_combo_returns in H3 as Heq3.
    subst. exists out0. repeat split; assumption.
  - intros (out0 & -> & -> & -> & ->). reflexivity.
Qed.

(** A configuration the dictionary step refuses is refused with
    [Invalid]. *)
Lemma CONFIG_SCHEMA_mapping_Bad raw m :
  validate_mapping (schema solenoid_schema) raw = Bad m →
  CONFIG_SCHEMA raw = Raise (Invalid m).
Proof.
  intros H. unfold CONFIG_SCHEMA, All, call_schema, bind, cbind, of_checked.
  by rewrite H.
Qed.

Lemma run_extras_keep extras c c' k :
  Forall keeps_solenoid_options extras →
  run_extras extras c = Valid c' →
  k ∈ solenoid_names → c' !! k = c !! k.
Proof.
  intros Hall. revert c. induction Hall as [|f extras Hf _ IH]; intros c; simpl.
  - by intros [= ->].
  - unfold cbind. destruct (f c) as [c1|] eqn:Hc; [| discriminate].
    intros Hrun Hk. rewrite (IH _ Hrun Hk). by apply (Hf c c1).
Qed.

(** What a configuration holds under an option of the component once the
    schema has run: the validated form of the value given, or of the
    default of the option, or nothing when there is neither. *)
Lemma validated_option raw out0 out k f :
  entity_checks_keep →
  validate_mapping (schema solenoid_schema) raw = Valid out0 →
  run_extras (extra_schemas solenoid_schema) out0 = Valid out →
  (k, f) ∈ solenoid_options →
  match raw !! k with
  | Some v => ∃ v', validator_of f v = Valid v' ∧ out !! k = Some v'
  | None =>
      match default_of f with
      | Some d => ∃ v', validator_of f d = Valid v' ∧ out !! k = Some v'
      | None => marker_of f ≠ Required ∧ out !! k = None
      end
  end.
Proof.
  intros Hkeep Hmap Hextra Hin.
  pose proof (solenoid_schema_lookup _ _ Hin) as Hf.
  rewrite (run_extras_keep _ _ _ k Hkeep Hextra (solenoid_option_name _ _ Hin)).
  pose proof (with_defaults_lookup (schema solenoid_schema) raw k) as Hd.
  rewrite Hf in Hd. change (Some f ≫= default_of) with (default_of f) in Hd.
  destruct (raw !! k) as [v|] eqn:Hraw.
  - by eapply validate_mapping_item.
  - destruct (default_of f) as [d|] eqn:Hdef.
    + by eapply validate_mapping_item.
    + split; [| by apply (validate_mapping_absent (schema solenoid_schema) raw)].
      intros Hreq.
      destruct (validate_mapping_required _ _ _ _ _ Hmap Hf Hreq) as [v Hv].
      congruence.
Qed.

Lemma accepted_option raw out k f :
  entity_checks_keep →
  CONFIG_SCHEMA raw = Ok out →
  (k, f) ∈ solenoid_options →
  match raw !! k with
  | Some v => ∃ v', validator_of f v = Valid v' ∧ out !! k = Some v'
  | None =>
      match default_of f with
      | Some d => ∃ v', validator_of f d = Valid v' ∧ out !! k = Some v'
      | None => marker_of f ≠ Required ∧ out !! k = None
      end
  end.
Proof.
  intros Hkeep (out0 & Hmap & Hextra & _ & _)%CONFIG_SCHEMA_Ok Hin.
  by eapply validated_option.
Qed.

(** Without the assumption on the extra checks, acceptance still means
    that the validator of each option accepted what the configuration
    gives it. *)
Lemma accepted_item raw out k f :
  CONFIG_SCHEMA raw = Ok out →
  (k, f) ∈ solenoid_options →
  match raw !! k with
  | Some v => ∃ v', validator_of f v = Valid v'
  | None => marker_of f ≠ Required
  end.
Proof.
  intros (out0 & Hmap & _)%CONFIG_SCHEMA_Ok Hin.
  pose proof (solenoid_schema_lookup _ _ Hin) as Hf.
  destruct (raw !! k) as [v|] eqn:Hraw.
  - destruct (validate_mapping_item _ raw out0 k f v Hmap Hf) as (v' & Hv & _);
      [by apply with_defaults_given | eauto].
  - intros Hreq.
    destruct (validate_mapping_required _ _ _ _ _ Hmap Hf Hreq) as [v Hv].
    congruence.
Qed.

(** A value its validator refuses, or a required option left out, makes
    [CONFIG_SCHEMA] raise [Invalid]. *)
Lemma rejected_item raw k f v m :
  (k, f) ∈ solenoid_options →
  raw !! k = Some v → validator_of f v = Bad m →
  is_invalid (CONFIG_SCHEMA raw).
Proof.
  intros Hin Hraw Hbad.
  destruct (validate_mapping (schema solenoid_schema) raw) as [out0|m'] eqn:Hmap;
    [| exists m'; by apply CONFIG_SCHEMA_mapping_Bad].
  destruct (validate_mapping_item _ raw out0 k f v Hmap) as (v' & Hv & _);
    [by apply solenoid_schema_lookup | by apply with_defaults_given | congruence].
Qed.

Lemma rejected_missing raw k f :
  (k, f) ∈ solenoid_options →
  marker_of f = Required → raw !! k = None →
  is_invalid (CONFIG_SCHEMA raw).
Proof.
  intros Hin Hreq Hraw.
  destruct (validate_mapping (schema solenoid_schema) raw) as [out0|m'] eqn:Hmap;
    [| exists m'; by apply CONFIG_SCHEMA_mapping_Bad].
  destruct (validate_mapping_required _ raw out0 k f Hmap) as [v Hv];
    [by apply solenoid_schema_lookup | done | congruence].
Qed.

Lemma validate_item_solenoid k f v :
  (k, f) ∈ solenoid_options →
  validate_item (schema solenoid_schema) k v = validator_of f v.
Proof.
  intros Hin. unfold validate_item. by rewrite (solenoid_schema_lookup _ _ Hin).
Qed.


(** After the schema, the two checks of the component can only return
    the configuration or raise [Invalid]: the names they subscript are
    there. *)
Lemma CONFIG_SCHEMA_Ok_or_Invalid raw :
  entity_checks_keep →
  (∃ out, CONFIG_SCHEMA raw = Ok out) ∨ is_invalid (CONFIG_SCHEMA raw).
Proof.
  intros Hkeep. unfold is_invalid.
  destruct (validate_mapping (schema solenoid_schema) raw) as [out0|m] eqn:Hmap;
    [| right; exists m; by apply CONFIG_SCHEMA_mapping_Bad].
  unfold CONFIG_SCHEMA, All, call_schema, bind, cbind, of_checked. rewrite Hmap.
  destruct (run_extras _ out0) as [out|m] eqn:Hextra; [| right; eauto].
  pose proof (validated_option raw out0 out CONF_SOLENOID_TYPE _ Hkeep Hmap Hextra
                ltac:(solenoid_option)) as Hty.
  pose proof (validated_option raw out0 out CONF_USING_HALF_BRIDGE _ Hkeep Hmap Hextra
                ltac:(solenoid_option)) as Hhb.
  cbn [validator_of default_of marker_of] in Hty, Hhb.
  assert (∃ ty, out !! CONF_SOLENOID_TYPE = Some ty) as [ty Ety].
  { destruct (raw !! CONF_SOLENOID_TYPE); [destruct Hty as (? & _ & ?); eauto |].
    by destruct Hty as [[] _]. }
  assert (∃ hb, out !! CONF_USING_HALF_BRIDGE = Some hb) as [hb Ehb].
  { destruct (raw !! CONF_USING_HALF_BRIDGE); destruct Hhb as (? & _ & ?); eauto. }
  unfold validate_dc_latching_solenoid, validate_pin_b_and_half_bridge_combo,
    bind, getitem.
  rewrite Ety, Ehb.
  destruct (eq_str ty "DC_LATCHING");
    [destruct (eq_bool hb true); [right; eauto |];
     destruct (negb (contains out CONF_PIN_B)); [right; eauto |] |];
    (destruct (_ && _); [right; eauto |]);
    (destruct (_ && _); [right; eauto |]); left; eauto.
Qed.

(** ** Code generation *)

(** The calls [to_code] generates for the pins and for the interlock
    wait time. *)
Lemma to_code_calls c code :
  to_code c = Ok code →
  (∃ a, c !! CONF_PIN_A = Some a
     ∧ calls "connect_a_pin" code = [Call "connect_a_pin" [VariableOf a]])
  ∧ calls "connect_b_pin" code =
      match c !! CONF_PIN_B with
      | Some b => [Call "connect_b_pin" [VariableOf b]]
      | None => []
      end
  ∧ calls "connect_enable_pin" code =
      match c !! CONF_BRIDGE_ENABLE_PIN with
      | Some e => [Call "connect_enable_pin" [VariableOf e]]
      | None => []
      end
  ∧ calls "set_interlock_wait_time" code =
      match c !! CONF_INTERLOCK, c !! CONF_INTERLOCK_WAIT_TIME with
      | Some _, Some w => [Call "set_interlock_wait_time" [Literal w]]
      | _, _ => []
      end.
Proof.
  unfold to_code, bind, getitem, contains, add.
  destruct (c !! CONF_PIN_A) as [a|]; [| discriminate].
  destruct (c !! CONF_PIN_B) as [b|];
    (destruct (c !! CONF_BRIDGE_ENABLE_PIN) as [e|];
     (destruct (c !! CONF_ENERGISE_DURATION_MS); [| discriminate]);
     (destruct (c !! CONF_DC_LATCH_REDO_COUNT); [| discriminate]);
     (destruct (c !! CONF_DC_LATCH_REDO_INTERVAL_MS); [| discriminate]);
     (destruct (c !! CONF_ENERGISE_POWER_PERCENT); [| discriminate]);
     (destruct (c !! CONF_HOLD_POWER_PERCENT); [| discriminate]);
     (destruct (c !! CONF_SOLENOID_TYPE); [| discriminate]);
     (destruct (c !! CONF_BRAKE_IS_HIGH); [| discriminate]);
     (destruct (c !! CONF_INVERTED); [| discriminate]);
     (destruct (c !! CONF_USING_HALF_BRIDGE); [| discriminate]);
     (destruct (c !! CONF_INTERLOCK) as [locks|];
      [destruct (iterate locks); [| discriminate];
       destruct (c !! CONF_INTERLOCK_WAIT_TIME); [| discriminate] |]);
     intros [= <-]; (split; [eexists; split; reflexivity |]);
     repeat split; reflexivity).
Qed.

(** [to_code] returns on every configuration that holds the options it
    subscripts and, when it has an interlock, a list of switches and a
    wait time. *)
Lemma to_code_returns c :
  Forall (λ k, is_Some (c !! k))
    [ CONF_PIN_A; CONF_ENERGISE_DURATION_MS; CONF_DC_LATCH_REDO_COUNT;
      CONF_DC_LATCH_REDO_INTERVAL_MS; CONF_ENERGISE_POWER_PERCENT;
      CONF_HOLD_POWER_PERCENT; CONF_SOLENOID_TYPE; CONF_BRAKE_IS_HIGH;
      CONF_INVERTED; CONF_USING_HALF_BRIDGE ] →
  (∀ locks, c !! CONF_INTERLOCK = Some locks →
     (∃ items, locks = VList items) ∧ is_Some (c !! CONF_INTERLOCK_WAIT_TIME)) →
  ∃ code, to_code c = Ok code.
Proof.
  intros Hkeys Hlock.
  repeat match goal with
         | H : Forall _ (_ :: _) |- _ =>
             apply Forall_cons in H as [[? ?] H]
         end.
  unfold to_code, bind, getitem, contains, add.
  repeat match goal with
         | H : c !! ?k = Some _ |- _ => rewrite H; clear H
         end.
  destruct (c !! CONF_PIN_B), (c !! CONF_BRIDGE_ENABLE_PIN);
    (destruct (c !! CONF_INTERLOCK) as [locks|]; [| eauto];
     destruct (Hlock locks eq_refl) as [[items ->] [w ->]]; simpl; eauto).
Qed.

(** Every option [to_code] subscripts is in an accepted configuration. *)
Lemma accepted_to_code_returns raw out :
  entity_checks_keep →
  CONFIG_SCHEMA raw = Ok out →
  ∃ code, to_code out = Ok code.
Proof.
  intros Hkeep Hok.
  pose proof (λ k f, accepted_option raw out k f Hkeep Hok) as Hopt.
  assert (Hsome : ∀ k f, (k, f) ∈ solenoid_options →
            marker_of f = Required ∨ is_Some (default_of f) → is_Some (out !! k)).
  { intros k f Hin Hm. specialize (Hopt k f Hin).
    destruct (raw !! k); [destruct Hopt as (? & _ & ->); eauto |].
    destruct (default_of f) eqn:Hd; [destruct Hopt as (? & _ & ->); eauto |].
    destruct Hm as [Hm | [? ?]]; [by destruct Hopt | discriminate]. }
  apply to_code_returns.
  - repeat (apply Forall_cons; split;
            [eapply Hsome; [solenoid_option | simpl; eauto] |]).
    constructor.
  - intros locks Hl. split.
    + specialize (Hopt CONF_INTERLOCK _ ltac:(solenoid_option)).
      cbn [validator_of default_of marker_of] in Hopt.
      destruct (raw !! CONF_INTERLOCK).
      * destruct Hopt as (v' & Hv%ensure_list_Valid & Hout).
        rewrite Hout in Hl. injection Hl as <-. done.
      * destruct Hopt as [_ Hnone]. congruence.
    + eapply Hsome; [solenoid_option | simpl; eauto].
Qed.

(** An accepted DC-latching configuration has its second pin. *)
Lemma accepted_dc_latching_has_pin_b raw out ty :
  CONFIG_SCHEMA raw = Ok out →
  out !! CONF_SOLENOID_TYPE = Some ty →
  eq_str ty "DC_LATCHING" = true →
  is_Some (out !! CONF_PIN_B).
Proof.
  intros (_ & _ & _ & Hdc & _)%CONFIG_SCHEMA_Ok Hty Heq.
  unfold validate_dc_latching_solenoid, bind, getitem, contains in Hdc.
  rewrite Hty, Heq in Hdc.
  destruct (out !! CONF_USING_HALF_BRIDGE) as [hb|]; [| discriminate].
  destruct (eq_bool hb true); [discriminate |].
  destruct (out !! CONF_PIN_B); [eauto | discriminate].
Qed.

Lemma accepted_optional_presence raw out k v :
  entity_checks_keep →
  CONFIG_SCHEMA raw = Ok out →
  (k, Field (Optional None) v) ∈ solenoid_options →
  contains out k = contains raw k.
Proof.
  intros Hkeep Hok Hin. unfold contains.
  pose proof (accepted_option raw out k _ Hkeep Hok Hin) as Hopt.
  cbn [validator_of default_of marker_of] in Hopt.
  destruct (raw !! k); [by destruct Hopt as (? & _ & ->) | by destruct Hopt as [_ ->]].
Qed.

(** In an accepted configuration [using_half_bridge] is a boolean: true
    exactly when the user asked for a half-bridge. *)
Lemma accepted_half_bridge raw out :
  entity_checks_keep →
  CONFIG_SCHEMA raw = Ok out →
  out !! CONF_USING_HALF_BRIDGE = Some (VBool (half_bridge_requested raw)).
Proof.
  intros Hkeep Hok.
  pose proof (accepted_option raw out CONF_USING_HALF_BRIDGE _ Hkeep Hok
                ltac:(solenoid_option)) as Hhb.
  cbn [validator_of default_of marker_of] in Hhb.
  unfold half_bridge_requested.
  destruct (raw !! CONF_USING_HALF_BRIDGE) as [v|].
  - destruct Hhb as (v' & Hv & ->).
    destruct (boolean_Valid _ _ Hv) as [b ->]. rewrite Hv. by destruct b.
  - by destruct Hhb as (v' & [= <-] & ->).
Qed.

End Pipeline.

(** The ASCII environment meets the assumption on the extra checks. *)
Lemma ascii_entity_checks_keep : @entity_checks_keep AsciiEnv.env.
Proof.
  unfold entity_checks_keep. simpl. constructor; [| constructor].
  intros c c' H k _. unfold AsciiEnv.entity_base_validator in H.
  destruct (_ || _); [by injection H as <- | discriminate].
Qed.

(** * The claims *)


(** C1.  On a configuration whose [solenoid_type] is DC_LATCHING (and
    which holds a value for [using_half_bridge], as every configuration
    leaving the schema does), the DC-latching check raises [Invalid]
    when [using_half_bridge] is true or [pin_b] is absent; it lets the
    configuration through exactly when there is a second bridge pin and
    no half-bridge; and no such configuration comes out of
    [CONFIG_SCHEMA] otherwise.  Seen from the user: a configuration whose
    type reads as DC_LATCHING and which asks for a half-bridge or has no
    [pin_b] makes [CONFIG_SCHEMA] raise [Invalid]. *)
Theorem dc_latching_requires_full_bridge {E : Env} :
  (∀ (c : gmap string value) (ty hb : value),
     c !! CONF_SOLENOID_TYPE = Some ty →
     eq_str ty "DC_LATCHING" = true →
     c !! CONF_USING_HALF_BRIDGE = Some hb →
     (eq_bool hb true = true ∨ contains c CONF_PIN_B = false →
        is_invalid (validate_dc_latching_solenoid c))
     ∧ (validate_dc_latching_solenoid c = Ok c ↔
          eq_bool hb true = false ∧ contains c CONF_PIN_B = true)
     ∧ (∀ raw, CONFIG_SCHEMA raw = Ok c →
          eq_bool hb true = false ∧ contains c CONF_PIN_B = true))
  ∧ (∀ (raw : gmap string value) (v : value) (s : string),
       entity_checks_keep →
       raw !! CONF_SOLENOID_TYPE = Some v →
       string_ v = Valid s → str_upper s = "DC_LATCHING"%string →
       half_bridge_requested raw = true ∨ contains raw CONF_PIN_B = false →
       is_invalid (CONFIG_SCHEMA raw)).
Proof.
  split.
  - intros c ty hb Hty Hdc Hhb.
    assert (Hrun : validate_dc_latching_solenoid c =
              if eq_bool hb true then
                Raise (Invalid "DC Latching Solenoid can't use a half-bridge as it requires a full h-bridge in order to reverse pulse polarity.")
              else if negb (contains c CONF_PIN_B) then
                Raise (Invalid ("DC Latching Solenoid requires " +:+ CONF_PIN_B +:+ " to be defined."))
              else Ok c).
    { unfold validate_dc_latching_solenoid, bind, getitem. by rewrite Hty, Hdc, Hhb. }
    assert (Hiff : validate_dc_latching_solenoid c = Ok c ↔
              eq_bool hb true = false ∧ contains c CONF_PIN_B = true).
    { rewrite Hrun. destruct (eq_bool hb true), (contains c CONF_PIN_B); simpl;
        split; (try discriminate); (try done); intros []; discriminate. }
    split; [| split; [exact Hiff |]].
    + rewrite Hrun. unfold is_invalid.
      intros [-> | ->]; [eauto |]. destruct (eq_bool hb true); simpl; eauto.
    + intros raw (_ & _ & _ & Hdcl & _)%CONFIG_SCHEMA_Ok. by apply Hiff.
  - intros raw v s Hkeep Hraw Hs Hupper Hbad.
    destruct (CONFIG_SCHEMA_Ok_or_Invalid raw Hkeep) as [[out Hok]|]; [| done].
    exfalso.
    pose proof (accepted_option raw out CONF_SOLENOID_TYPE _ Hkeep Hok
                  ltac:(solenoid_option)) as Hty.
    cbn [validator_of default_of marker_of] in Hty. rewrite Hraw in Hty.
    destruct Hty as (ty & (s' & t & Hs' & _ & ->)%enum_Valid & Hout).
    rewrite Hs in Hs'. injection Hs' as <-. rewrite Hupper in Hout.
    pose proof (accepted_half_bridge raw out Hkeep Hok) as Hhb.
    destruct (accepted_dc_latching_has_pin_b raw out _ Hok Hout eq_refl) as [b Hb].
    pose proof (accepted_optional_presence raw out CONF_PIN_B (use_id BinaryOutput)
                  Hkeep Hok ltac:(solenoid_option)) as Hpb.
    unfold contains at 1 in Hpb. rewrite Hb in Hpb.
    destruct Hbad as [Hreq | Hnone]; [| congruence].
    apply CONFIG_SCHEMA_Ok in Hok as (_ & _ & _ & Hdc & _).
    unfold validate_dc_latching_solenoid, bind, getitem in Hdc.
    rewrite Hout, Hhb, Hreq in Hdc. discriminate.
Qed.

Lemma dc_latching_requires_full_bridge_witness :
  is_invalid (validate_dc_latching_solenoid latching_on_half_bridge)
  ∧ is_invalid (@CONFIG_SCHEMA AsciiEnv.env latching_without_pin_b).
Proof.
  destruct (@dc_latching_requires_full_bridge AsciiEnv.env) as [Hcheck Hschema].
  split.
  - apply (proj1 (Hcheck latching_on_half_bridge
                    (VEnum "DC_LATCHING" SOLENOID_TYPE_DC_LATCHING) (VBool true)
                    eq_refl eq_refl eq_refl)).
    left. reflexivity.
  - apply (Hschema latching_without_pin_b (VStr "dc_latching") "dc_latching"%string
             ascii_entity_checks_keep eq_refl eq_refl eq_refl).
    right. reflexivity.
Defined.

(** C2.  A configuration that [CONFIG_SCHEMA] accepts has exactly one of
    the two: [using_half_bridge] true, or [pin_b] present.  A
    configuration that asks for a half-bridge and defines [pin_b], and one
    that does neither, are refused with [Invalid]. *)
Theorem accepted_half_bridge_xor_pin_b {E : Env} (raw : gmap string value) :
  entity_checks_keep →
  (∀ out, CONFIG_SCHEMA raw = Ok out →
     ∃ hb, out !! CONF_USING_HALF_BRIDGE = Some (VBool hb)
       ∧ hb = negb (contains out CONF_PIN_B)
       ∧ hb = half_bridge_requested raw
       ∧ contains out CONF_PIN_B = contains raw CONF_PIN_B)
  ∧ (half_bridge_requested raw = contains raw CONF_PIN_B →
       is_invalid (CONFIG_SCHEMA raw)).
Proof.
  intros Hkeep.
  assert (Hacc : ∀ out, CONFIG_SCHEMA raw = Ok out →
     ∃ hb, out !! CONF_USING_HALF_BRIDGE = Some (VBool hb)
       ∧ hb = negb (contains out CONF_PIN_B)
       ∧ hb = half_bridge_requested raw
       ∧ contains out CONF_PIN_B = contains raw CONF_PIN_B).
  { intros out Hok.
    pose proof (accepted_half_bridge raw out Hkeep Hok) as Ehb.
    pose proof (accepted_optional_presence raw out CONF_PIN_B (use_id BinaryOutput)
                  Hkeep Hok ltac:(solenoid_option)) as Epb.
    apply CONFIG_SCHEMA_Ok in Hok as (_ & _ & _ & _ & Hcombo).
    exists (half_bridge_requested raw). repeat split; try done.
    unfold validate_pin_b_and_half_bridge_combo, present_and_eq in Hcombo.
    rewrite Ehb in Hcombo. simpl in Hcombo.
    destruct (half_bridge_requested raw), (contains out CONF_PIN_B);
      simpl in Hcombo; done. }
  split; [exact Hacc |].
  intros Hboth.
  destruct (CONFIG_SCHEMA_Ok_or_Invalid raw Hkeep) as [[out Hok]|]; [| done].
  destruct (Hacc out Hok) as (hb & _ & H1 & H2 & H3).
  rewrite H3, <- Hboth, <- H2 in H1. by destruct hb.
Qed.

Lemma accepted_half_bridge_xor_pin_b_witness :
  is_invalid (@CONFIG_SCHEMA AsciiEnv.env half_bridge_with_pin_b).
Proof.
  apply (proj2 (@accepted_half_bridge_xor_pin_b AsciiEnv.env
                  half_bridge_with_pin_b ascii_entity_checks_keep)).
  vm_compute. reflexivity.
Defined.





(** C6.  In an accepted configuration, each of these options the user
    left out holds its default: [dc_latch_redo_count] 3,
    [dc_latch_redo_interval_ms] 500, [energise_power_percent] what
    [cv.percentage] makes of "95%", [hold_power_percent] what it makes of
    "55%", [interlock_wait_time] what
    [cv.positive_time_period_milliseconds] makes of "0ms", [inverted]
    false and [using_half_bridge] false. *)
Theorem defaults_filled_in {E : Env} (raw out : gmap string value) :
  entity_checks_keep →
  CONFIG_SCHEMA raw = Ok out →
  (raw !! CONF_DC_LATCH_REDO_COUNT = None →
     out !! CONF_DC_LATCH_REDO_COUNT = Some (VInt 3))
  ∧ (raw !! CONF_DC_LATCH_REDO_INTERVAL_MS = None →
       out !! CONF_DC_LATCH_REDO_INTERVAL_MS = Some (VInt 500))
  ∧ (raw !! CONF_ENERGISE_POWER_PERCENT = None →
       ∃ p, percentage (VStr "95%") = Valid p
         ∧ out !! CONF_ENERGISE_POWER_PERCENT = Some p)
  ∧ (raw !! CONF_HOLD_POWER_PERCENT = None →
       ∃ p, percentage (VStr "55%") = Valid p
         ∧ out !! CONF_HOLD_POWER_PERCENT = Some p)
  ∧ (raw !! CONF_INTERLOCK_WAIT_TIME = None →
       ∃ t, positive_time_period_milliseconds (VStr "0ms") = Valid t
         ∧ out !! CONF_INTERLOCK_WAIT_TIME = Some t)
  ∧ (raw !! CONF_INVERTED = None → out !! CONF_INVERTED = Some (VBool false))
  ∧ (raw !! CONF_USING_HALF_BRIDGE = None →
       out !! CONF_USING_HALF_BRIDGE = Some (VBool false)).
Proof.
  intros Hkeep Hok.
  pose proof (λ k f, accepted_option raw out k f Hkeep Hok) as Hopt.
  repeat split; intros Hraw.
  - specialize (Hopt CONF_DC_LATCH_REDO_COUNT _ ltac:(solenoid_option)).
    rewrite Hraw in Hopt. by destruct Hopt as (v & [= <-] & ->).
  - specialize (Hopt CONF_DC_LATCH_REDO_INTERVAL_MS _ ltac:(solenoid_option)).
    rewrite Hraw in Hopt. by destruct Hopt as (v & [= <-] & ->).
  - specialize (Hopt CONF_ENERGISE_POWER_PERCENT _ ltac:(solenoid_option)).
    by rewrite Hraw in Hopt.
  - specialize (Hopt CONF_HOLD_POWER_PERCENT _ ltac:(solenoid_option)).
    by rewrite Hraw in Hopt.
  - specialize (Hopt CONF_INTERLOCK_WAIT_TIME _ ltac:(solenoid_option)).
    by rewrite Hraw in Hopt.
  - specialize (Hopt CONF_INVERTED _ ltac:(solenoid_option)).
    rewrite Hraw in Hopt. by destruct Hopt as (v & [= <-] & ->).
  - specialize (Hopt CONF_USING_HALF_BRIDGE _ ltac:(solenoid_option)).
    rewrite Hraw in Hopt. by destruct Hopt as (v & [= <-] & ->).
Qed.

Lemma latching_valve_accepted :
  @CONFIG_SCHEMA AsciiEnv.env latching_valve = Ok validated_latching_valve.
Proof. vm_compute. reflexivity. Qed.

Lemma ac_valve_accepted :
  @CONFIG_SCHEMA AsciiEnv.env ac_valve = Ok validated_ac_valve.
Proof. vm_compute. reflexivity. Qed.

Lemma defaults_filled_in_witness :
  validated_latching_valve !! CONF_DC_LATCH_REDO_COUNT = Some (VInt 3)
  ∧ validated_latching_valve !! CONF_DC_LATCH_REDO_INTERVAL_MS = Some (VInt 500)
  ∧ validated_latching_valve !! CONF_ENERGISE_POWER_PERCENT = Some (VFloat 0.95)
  ∧ validated_latching_valve !! CONF_HOLD_POWER_PERCENT = Some (VFloat 0.55)
  ∧ validated_latching_valve !! CONF_INTERLOCK_WAIT_TIME
      = Some (VTimePeriodMilliseconds 0)
  ∧ validated_latching_valve !! CONF_INVERTED = Some (VBool false)
  ∧ validated_latching_valve !! CONF_USING_HALF_BRIDGE = Some (VBool false).
Proof.
  destruct (@defaults_filled_in AsciiEnv.env latching_valve validated_latching_valve
              ascii_entity_checks_keep latching_valve_accepted)
    as (H1 & H2 & H3 & H4 & H5 & H6 & H7).
  split; [exact (H1 eq_refl) |]. split; [exact (H2 eq_refl) |].
  split; [destruct (H3 eq_refl) as (p & [= <-] & Hp); exact Hp |].
  split; [destruct (H4 eq_refl) as (p & [= <-] & Hp); exact Hp |].
  split; [destruct (H5 eq_refl) as (p & [= <-] & Hp); exact Hp |].
  split; [exact (H6 eq_refl) | exact (H7 eq_refl)].
Defined.

(** C7.  The schema holds [pin_a] as a required identifier of a
    [FloatOutput], and [pin_b] and [h_bridge_enable_pin] as optional
    identifiers of a [BinaryOutput].  A configuration without [pin_a] is
    refused with [Invalid]; in an accepted one [pin_a] refers to a
    [FloatOutput], and the other two pins are absent when the user left
    them out and refer to a [BinaryOutput] otherwise. *)
Theorem pins_of_the_schema {E : Env} :
  schema solenoid_schema !! CONF_PIN_A
    = Some (Field Required (use_id FloatOutput))
  ∧ schema solenoid_schema !! CONF_PIN_B
      = Some (Field (Optional None) (use_id BinaryOutput))
  ∧ schema solenoid_schema !! CONF_BRIDGE_ENABLE_PIN
      = Some (Field (Optional None) (use_id BinaryOutput))
  ∧ (∀ raw, raw !! CONF_PIN_A = None → is_invalid (CONFIG_SCHEMA raw))
  ∧ (∀ raw out, entity_checks_keep → CONFIG_SCHEMA raw = Ok out →
       (∃ name, out !! CONF_PIN_A = Some (VID name false FloatOutput))
       ∧ (∀ key, key = CONF_PIN_B ∨ key = CONF_BRIDGE_ENABLE_PIN →
            match raw !! key with
            | Some _ => ∃ name, out !! key = Some (VID name false BinaryOutput)
            | None => out !! key = None
            end)).
Proof.
  split; [apply solenoid_schema_lookup; solenoid_option |].
  split; [apply solenoid_schema_lookup; solenoid_option |].
  split; [apply solenoid_schema_lookup; solenoid_option |].
  split.
  - intros raw Hraw.
    by apply (rejected_missing raw CONF_PIN_A _ ltac:(solenoid_option)).
  - intros raw out Hkeep Hok.
    pose proof (λ k f, accepted_option raw out k f Hkeep Hok) as Hopt.
    split.
    + specialize (Hopt CONF_PIN_A _ ltac:(solenoid_option)).
      cbn [validator_of default_of marker_of] in Hopt.
      destruct (raw !! CONF_PIN_A); [| by destruct Hopt as [[] _]].
      destruct Hopt as (v' & [name ->]%use_id_Valid & ->). eauto.
    + intros key [-> | ->].
      * specialize (Hopt CONF_PIN_B _ ltac:(solenoid_option)).
        cbn [validator_of default_of marker_of] in Hopt.
        destruct (raw !! CONF_PIN_B); [| by destruct Hopt].
        destruct Hopt as (v' & [name ->]%use_id_Valid & ->). eauto.
      * specialize (Hopt CONF_BRIDGE_ENABLE_PIN _ ltac:(solenoid_option)).
        cbn [validator_of default_of marker_of] in Hopt.
        destruct (raw !! CONF_BRIDGE_ENABLE_PIN); [| by destruct Hopt].
        destruct Hopt as (v' & [name ->]%use_id_Valid & ->). eauto.
Qed.

Lemma pins_of_the_schema_witness :
  is_invalid (@CONFIG_SCHEMA AsciiEnv.env no_pin_a_valve)
  ∧ (∃ name, validated_ac_valve !! CONF_PIN_A = Some (VID name false FloatOutput))
  ∧ validated_ac_valve !! CONF_PIN_B = None
  ∧ validated_ac_valve !! CONF_BRIDGE_ENABLE_PIN = None.
Proof.
  destruct (@pins_of_the_schema AsciiEnv.env) as (_ & _ & _ & Hnone & Hacc).
  split; [apply (Hnone no_pin_a_valve); reflexivity |].
  destruct (Hacc ac_valve validated_ac_valve ascii_entity_checks_keep
              ac_valve_accepted) as [Ha Hb].
  split; [exact Ha |].
  split; [exact (Hb CONF_PIN_B (or_introl eq_refl))
         | exact (Hb CONF_BRIDGE_ENABLE_PIN (or_intror eq_refl))].
Defined.

(** C8.  [SOLENOID_TYPE_OPTIONS] names the three variants DC_LATCHING, AC
    and DC.  The schema requires [solenoid_type] and accepts a value for
    it exactly when the value reads as a string whose upper-case form is
    one of the three names; a configuration that leaves the option out,
    or gives it any other value, makes [CONFIG_SCHEMA] raise [Invalid]. *)
Theorem solenoid_type_is_one_of_three {E : Env} :
  SOLENOID_TYPE_OPTIONS.*1 = ["DC_LATCHING"; "AC"; "DC"]%string
  ∧ schema solenoid_schema !! CONF_SOLENOID_TYPE
      = Some (Field Required (enum SOLENOID_TYPE_OPTIONS))
  ∧ (∀ v out, validate_item (schema solenoid_schema) CONF_SOLENOID_TYPE v = Valid out ↔
       ∃ s t, string_ v = Valid s
         ∧ (str_upper s, t) ∈ SOLENOID_TYPE_OPTIONS
         ∧ out = VEnum (str_upper s) t)
  ∧ (∀ raw, raw !! CONF_SOLENOID_TYPE = None → is_invalid (CONFIG_SCHEMA raw))
  ∧ (∀ raw v, raw !! CONF_SOLENOID_TYPE = Some v →
       (∀ s, string_ v = Valid s → str_upper s ∉ SOLENOID_TYPE_OPTIONS.*1) →
       is_invalid (CONFIG_SCHEMA raw)).
Proof.
  assert (Hin : (CONF_SOLENOID_TYPE, Field Required (enum SOLENOID_TYPE_OPTIONS))
                  ∈ solenoid_options) by solenoid_option.
  split; [reflexivity |].
  split; [by apply solenoid_schema_lookup |].
  split; [| split].
  - intros v out. rewrite (validate_item_solenoid _ _ _ Hin). apply enum_Valid.
  - intros raw Hraw. by apply (rejected_missing raw _ _ Hin).
  - intros raw v Hraw Hnot.
    destruct (enum SOLENOID_TYPE_OPTIONS v) as [out|m] eqn:Hv.
    + apply enum_Valid in Hv as (s & t & Hs & Ht & _).
      destruct (Hnot s Hs). apply list_elem_of_fmap. by exists (str_upper s, t).
    + by apply (rejected_item raw _ _ _ m Hin Hraw).
Qed.

Lemma solenoid_type_is_one_of_three_witness :
  is_invalid (@CONFIG_SCHEMA AsciiEnv.env no_type_valve)
  ∧ is_invalid (@CONFIG_SCHEMA AsciiEnv.env unknown_type_valve).
Proof.
  destruct (@solenoid_type_is_one_of_three AsciiEnv.env) as (_ & _ & _ & Hnone & Hbad).
  split; [apply (Hnone no_type_valve); reflexivity |].
  apply (Hbad unknown_type_valve (VStr "latching")); [reflexivity |].
  intros s [= <-]. apply (bool_decide_unpack _). vm_compute. reflexivity.
Defined.

(** C9.  For an accepted configuration, [to_code] returns, and the code
    it generates calls [set_interlock_wait_time] once, with the wait time
    of the configuration, when the configuration has the [interlock]
    option, and not at all when it has not: a wait time given without an
    interlock list never reaches the driver. *)
Theorem interlock_wait_time_needs_interlock {E : Env} (raw out : gmap string value) :
  entity_checks_keep →
  CONFIG_SCHEMA raw = Ok out →
  ∃ code wait,
    to_code out = Ok code
    ∧ out !! CONF_INTERLOCK_WAIT_TIME = Some wait
    ∧ calls "set_interlock_wait_time" code =
        if contains raw CONF_INTERLOCK
        then [Call "set_interlock_wait_time" [Literal wait]]
        else [].
Proof.
  intros Hkeep Hok.
  destruct (accepted_to_code_returns raw out Hkeep Hok) as [code Hcode].
  pose proof (accepted_option raw out CONF_INTERLOCK_WAIT_TIME _ Hkeep Hok
                ltac:(solenoid_option)) as Hwait.
  cbn [validator_of default_of marker_of] in Hwait.
  assert (∃ wait, out !! CONF_INTERLOCK_WAIT_TIME = Some wait) as [wait Ew].
  { destruct (raw !! CONF_INTERLOCK_WAIT_TIME); destruct Hwait as (? & _ & ?); eauto. }
  exists code, wait. split; [done |]. split; [done |].
  destruct (to_code_calls out code Hcode) as (_ & _ & _ & ->).
  rewrite <- (accepted_optional_presence raw out CONF_INTERLOCK _ Hkeep Hok
                ltac:(solenoid_option)).
  unfold contains. rewrite Ew. by destruct (out !! CONF_INTERLOCK).
Qed.

Lemma lone_wait_valve_accepted :
  @CONFIG_SCHEMA AsciiEnv.env lone_wait_valve = Ok validated_lone_wait_valve.
Proof. vm_compute. reflexivity. Qed.

Lemma interlock_wait_time_needs_interlock_witness :
  ∃ code,
    to_code validated_lone_wait_valve = Ok code
    ∧ validated_lone_wait_valve !! CONF_INTERLOCK_WAIT_TIME
        = Some (VTimePeriodMilliseconds 2000)
    ∧ calls "set_interlock_wait_time" code = [].
Proof.
  destruct (@interlock_wait_time_needs_interlock AsciiEnv.env lone_wait_valve
              validated_lone_wait_valve ascii_entity_checks_keep
              lone_wait_valve_accepted) as (code & wait & Hcode & Hwait & Hcalls).
  exists code. split; [exact Hcode |]. split; [reflexivity | exact Hcalls].
Defined.

(** C10.  For an accepted configuration, [to_code] returns, and the code
    it generates calls [connect_a_pin] exactly once, calls
    [connect_b_pin] (once) exactly when the configuration has [pin_b],
    and calls [connect_enable_pin] (once) exactly when it has
    [h_bridge_enable_pin]; when the type is DC_LATCHING the B pin is
    connected. *)
Theorem pins_are_connected {E : Env} (raw out : gmap string value) :
  entity_checks_keep →
  CONFIG_SCHEMA raw = Ok out →
  ∃ code a,
    to_code out = Ok code
    ∧ out !! CONF_PIN_A = Some a
    ∧ calls "connect_a_pin" code = [Call "connect_a_pin" [VariableOf a]]
    ∧ calls "connect_b_pin" code =
        match out !! CONF_PIN_B with
        | Some b => [Call "connect_b_pin" [VariableOf b]]
        | None => []
        end
    ∧ calls "connect_enable_pin" code =
        match out !! CONF_BRIDGE_ENABLE_PIN with
        | Some e => [Call "connect_enable_pin" [VariableOf e]]
        | None => []
        end
    ∧ contains out CONF_PIN_B = contains raw CONF_PIN_B
    ∧ contains out CONF_BRIDGE_ENABLE_PIN = contains raw CONF_BRIDGE_ENABLE_PIN
    ∧ (∀ ty, out !! CONF_SOLENOID_TYPE = Some ty →
         eq_str ty "DC_LATCHING" = true →
         ∃ b, calls "connect_b_pin" code = [Call "connect_b_pin" [VariableOf b]]).
Proof.
  intros Hkeep Hok.
  destruct (accepted_to_code_returns raw out Hkeep Hok) as [code Hcode].
  destruct (to_code_calls out code Hcode) as ((a & Ha & Hca) & Hcb & Hce & _).
  exists code, a. repeat (split; [done |]).
  split; [apply (accepted_optional_presence raw out CONF_PIN_B
                   (use_id BinaryOutput) Hkeep Hok); solenoid_option |].
  split; [apply (accepted_optional_presence raw out CONF_BRIDGE_ENABLE_PIN
                   (use_id BinaryOutput) Hkeep Hok); solenoid_option |].
  intros ty Hty Hdc.
  destruct (accepted_dc_latching_has_pin_b raw out ty Hok Hty Hdc) as [b Hb].
  exists b. by rewrite Hcb, Hb.
Qed.

Lemma pins_are_connected_witness :
  ∃ code,
    to_code validated_latching_valve = Ok code
    ∧ calls "connect_a_pin" code
        = [Call "connect_a_pin" [VariableOf (VID (Some "bridge_a") false FloatOutput)]]
    ∧ calls "connect_b_pin" code
        = [Call "connect_b_pin" [VariableOf (VID (Some "bridge_b") false BinaryOutput)]]
    ∧ calls "connect_enable_pin" code = [].
Proof.
  destruct (@pins_are_connected AsciiEnv.env latching_valve validated_latching_valve
              ascii_entity_checks_keep latching_valve_accepted)
    as (code & a & Hcode & Ha & Hca & Hcb & Hce & _).
  exists code. split; [exact Hcode |].
  injection Ha as <-. split; [exact Hca |]. split; [exact Hcb | exact Hce].
Defined.

(** ** The DC-latching policy *)

Module DriverFacts.
Import Driver.










End DriverFacts.



(** With a period that does not divide the pulse length the pulses last
    until the first tick after their time is up: at 16 ms per tick each
    pulse takes 32 ms and each pause 512 ms.  There are still three. *)
Remark coarse_ticks_lengthen_the_pulses :
  Driver.stretches 0 Driver.FORWARD
    (Driver.bridge_changes Driver.FORWARD
       (Driver.run Driver.three_attempts 16 100 0
          (Driver.begin_burst Driver.three_attempts Driver.TURNING_ON 0)))
  = [ (Driver.FORWARD, 32); (Driver.COAST, 512);
      (Driver.FORWARD, 32); (Driver.COAST, 512);
      (Driver.FORWARD, 32) ]%Z.
Proof. vm_compute. reflexivity. Qed.

(** * Further properties of the schema and of the generated code *)

Section Stages.
Context {E : Env}.

Lemma call_schema_Valid raw out :
  call_schema solenoid_schema raw = Valid out ↔
    ∃ out0, validate_mapping (schema solenoid_schema) raw = Valid out0
      ∧ run_extras (extra_schemas solenoid_schema) out0 = Valid out.
Proof.
  unfold call_schema, cbind. split.
  - destruct (validate_mapping _ raw) as [out0|]; [eauto | discriminate].
  - by intros (out0 & -> & ->).
Qed.

Lemma schema_option raw out k f :
  entity_checks_keep →
  call_schema solenoid_schema raw = Valid out →
  (k, f) ∈ solenoid_options →
  match raw !! k with
  | Some v => ∃ v', validator_of f v = Valid v' ∧ out !! k = Some v'
  | None =>
      match default_of f with
      | Some d => ∃ v', validator_of f d = Valid v' ∧ out !! k = Some v'
      | None => marker_of f ≠ Required ∧ out !! k = None
      end
  end.
Proof.
  intros Hkeep (out0 & Hmap & Hextra)%call_schema_Valid Hin.
  by eapply validated_option.
Qed.

Lemma schema_half_bridge raw out :
  entity_checks_keep →
  call_schema solenoid_schema raw = Valid out →
  out !! CONF_USING_HALF_BRIDGE = Some (VBool (half_bridge_requested raw)).
Proof.
  intros Hkeep Hok.
  pose proof (schema_option raw out CONF_USING_HALF_BRIDGE _ Hkeep Hok
                ltac:(solenoid_option)) as Hhb.
  cbn [validator_of default_of marker_of] in Hhb.
  unfold half_bridge_requested.
  destruct (raw !! CONF_USING_HALF_BRIDGE) as [v|].
  - destruct Hhb as (v' & Hv & ->).
    destruct (boolean_Valid _ _ Hv) as [b ->]. rewrite Hv. by destruct b.
  - by destruct Hhb as (v' & [= <-] & ->).
Qed.

Lemma schema_pin_b raw out :
  entity_checks_keep →
  call_schema solenoid_schema raw = Valid out →
  contains out CONF_PIN_B = contains raw CONF_PIN_B.
Proof.
  intros Hkeep Hok. unfold contains.
  pose proof (schema_option raw out CONF_PIN_B _ Hkeep Hok
                ltac:(solenoid_option)) as Hopt.
  cbn [validator_of default_of marker_of] in Hopt.
  destruct (raw !! CONF_PIN_B); [by destruct Hopt as (? & _ & ->) | by destruct Hopt as [_ ->]].
Qed.

Lemma schema_solenoid_type raw out :
  entity_checks_keep →
  call_schema solenoid_schema raw = Valid out →
  ∃ v s t, raw !! CONF_SOLENOID_TYPE = Some v
    ∧ string_ v = Valid s
    ∧ (str_upper s, t) ∈ SOLENOID_TYPE_OPTIONS
    ∧ out !! CONF_SOLENOID_TYPE = Some (VEnum (str_upper s) t).
Proof.
  intros Hkeep Hok.
  pose proof (schema_option raw out CONF_SOLENOID_TYPE _ Hkeep Hok
                ltac:(solenoid_option)) as Hopt.
  cbn [validator_of default_of marker_of] in Hopt.
  destruct (raw !! CONF_SOLENOID_TYPE) as [v|]; [| by destruct Hopt as [[] _]].
  destruct Hopt as (v' & (s & t & Hs & Ht & ->)%enum_Valid & Hout).
  exists v, s, t. eauto.
Qed.

(** The two checks on a configuration whose [using_half_bridge] is a
    boolean. *)
Lemma dc_check_on out ty hb :
  out !! CONF_SOLENOID_TYPE = Some ty →
  out !! CONF_USING_HALF_BRIDGE = Some (VBool hb) →
  validate_dc_latching_solenoid out =
    if eq_str ty "DC_LATCHING" then
      if hb then Raise half_bridge_on_latching
      else if contains out CONF_PIN_B then Ok out
      else Raise latching_needs_pin_b
    else Ok out.
Proof.
  intros Hty Hhb. unfold validate_dc_latching_solenoid, bind, getitem.
  rewrite Hty. destruct (eq_str ty "DC_LATCHING"); [| done].
  rewrite Hhb. destruct hb; [done |]. simpl.
  by destruct (contains out CONF_PIN_B).
Qed.

Lemma combo_check_on out hb :
  out !! CONF_USING_HALF_BRIDGE = Some (VBool hb) →
  validate_pin_b_and_half_bridge_combo out =
    if hb && contains out CONF_PIN_B then Raise half_bridge_and_pin_b
    else if negb hb && negb (contains out CONF_PIN_B)
    then Raise neither_half_bridge_nor_pin_b
    else Ok out.
Proof.
  intros Hhb. unfold validate_pin_b_and_half_bridge_combo, present_and_eq.
  rewrite Hhb. by destruct hb, (contains out CONF_PIN_B).
Qed.

(** [CONFIG_SCHEMA] on a configuration that passes the schema. *)
Lemma CONFIG_SCHEMA_verdict raw out :
  entity_checks_keep →
  call_schema solenoid_schema raw = Valid out →
  ∃ ty, out !! CONF_SOLENOID_TYPE = Some ty
    ∧ CONFIG_SCHEMA raw =
        verdict (eq_str ty "DC_LATCHING") (half_bridge_requested raw)
                (contains raw CONF_PIN_B) out.
Proof.
  intros Hkeep Hok.
  destruct (schema_solenoid_type raw out Hkeep Hok) as (v & s & t & _ & _ & _ & Hty).
  pose proof (schema_half_bridge raw out Hkeep Hok) as Hhb.
  pose proof (schema_pin_b raw out Hkeep Hok) as Hpb.
  eexists. split; [exact Hty |].
  unfold CONFIG_SCHEMA, All, of_checked. rewrite Hok. unfold bind at 1.
  rewrite (dc_check_on out _ _ Hty Hhb). unfold verdict, bind.
  destruct (half_bridge_requested raw), (contains raw CONF_PIN_B),
    (eq_str _ _); rewrite ?Hpb; try reflexivity;
    rewrite (combo_check_on out _ Hhb), Hpb; reflexivity.
Qed.

End Stages.

(** X1.  Once a configuration has passed the schema, what [CONFIG_SCHEMA]
    does with it depends on three facts only.  A DC_LATCHING
    configuration on a half-bridge is refused with the half-bridge message
    of the DC-latching check, with or without [pin_b]; one without
    half-bridge and without [pin_b] is refused with "requires pin_b"; any
    other type with both a half-bridge and [pin_b], or with neither, is
    refused with the message of the combination check; everything else is
    returned as the schema left it.  A configuration the schema refuses
    is refused with the error of the schema. *)
Theorem checks_decide_on_three_facts {E : Env} (raw : gmap string value) :
  entity_checks_keep →
  match call_schema solenoid_schema raw with
  | Valid out =>
      ∃ ty, out !! CONF_SOLENOID_TYPE = Some ty
        ∧ CONFIG_SCHEMA raw =
            verdict (eq_str ty "DC_LATCHING") (half_bridge_requested raw)
                    (contains raw CONF_PIN_B) out
  | Bad m => CONFIG_SCHEMA raw = Raise (Invalid m)
  end.
Proof.
  intros Hkeep.
  destruct (call_schema solenoid_schema raw) as [out|m] eqn:Hcall.
  - by apply CONFIG_SCHEMA_verdict.
  - unfold CONFIG_SCHEMA, All, bind, of_checked. by rewrite Hcall.
Qed.

Lemma latching_with_both_passes_the_schema :
  call_schema (@solenoid_schema AsciiEnv.env) latching_with_both
    = Valid schema_latching_with_both.
Proof. vm_cast_no_check (eq_refl (Valid schema_latching_with_both)). Qed.

Lemma ac_without_return_passes_the_schema :
  call_schema (@solenoid_schema AsciiEnv.env) ac_without_return
    = Valid schema_ac_without_return.
Proof. vm_cast_no_check (eq_refl (Valid schema_ac_without_return)). Qed.

Lemma checks_decide_on_three_facts_witness :
  @CONFIG_SCHEMA AsciiEnv.env latching_with_both = Raise half_bridge_on_latching
  ∧ @CONFIG_SCHEMA AsciiEnv.env ac_without_return
      = Raise neither_half_bridge_nor_pin_b.
Proof.
  split.
  - pose proof (@checks_decide_on_three_facts AsciiEnv.env latching_with_both
                  ascii_entity_checks_keep) as H.
    rewrite latching_with_both_passes_the_schema in H.
    destruct H as (ty & Hty & ->).
    vm_compute in Hty. injection Hty as <-. reflexivity.
  - pose proof (@checks_decide_on_three_facts AsciiEnv.env ac_without_return
                  ascii_entity_checks_keep) as H.
    rewrite ac_without_return_passes_the_schema in H.
    destruct H as (ty & Hty & ->).
    vm_compute in Hty. injection Hty as <-. reflexivity.
Defined.

(** ** What [to_code] generates *)

Ltac run_to_code c :=
  unfold to_code, bind, getitem, contains, add;
  destruct (c !! CONF_PIN_A) eqn:?; [| discriminate];
  destruct (c !! CONF_PIN_B) eqn:?;
    (destruct (c !! CONF_BRIDGE_ENABLE_PIN) eqn:?;
     (destruct (c !! CONF_ENERGISE_DURATION_MS) eqn:?; [| discriminate]);
     (destruct (c !! CONF_DC_LATCH_REDO_COUNT) eqn:?; [| discriminate]);
     (destruct (c !! CONF_DC_LATCH_REDO_INTERVAL_MS) eqn:?; [| discriminate]);
     (destruct (c !! CONF_ENERGISE_POWER_PERCENT) eqn:?; [| discriminate]);
     (destruct (c !! CONF_HOLD_POWER_PERCENT) eqn:?; [| discriminate]);
     (destruct (c !! CONF_SOLENOID_TYPE) eqn:?; [| discriminate]);
     (destruct (c !! CONF_BRAKE_IS_HIGH) eqn:?; [| discriminate]);
     (destruct (c !! CONF_INVERTED) eqn:?; [| discriminate]);
     (destruct (c !! CONF_USING_HALF_BRIDGE) eqn:?; [| discriminate]);
     (destruct (c !! CONF_INTERLOCK) as [locks|] eqn:?;
      [destruct (iterate locks) eqn:?; [| discriminate];
       destruct (c !! CONF_INTERLOCK_WAIT_TIME) eqn:?; [| discriminate] |]);
     intros [= <-]).

(** Membership of a setter in the table of settings. *)
Ltac setting :=
  unfold settings;
  repeat first [apply list_elem_of_here | apply list_elem_of_further].

Lemma to_code_settings c code :
  to_code c = Ok code →
  Forall (λ mk, ∃ v, c !! mk.2 = Some v ∧ calls mk.1 code = [Call mk.1 [Literal v]])
         settings.
Proof.
  unfold settings.
  run_to_code c;
    repeat (apply Forall_cons; split;
            [eexists; split; [eassumption | reflexivity] |]);
    constructor.
Qed.

Lemma to_code_interlock c code :
  to_code c = Ok code →
  match c !! CONF_INTERLOCK with
  | Some locks =>
      ∃ its, iterate locks = Ok its
        ∧ calls "set_interlock" code
            = [Call "set_interlock" [ListOf (map get_variable its)]]
  | None => calls "set_interlock" code = []
  end.
Proof.
  run_to_code c; first [reflexivity | eexists; split; reflexivity].
Qed.

Lemma settings_lookup m k :
  (m, k) ∈ settings → ∀ c code, to_code c = Ok code →
  ∃ v, c !! k = Some v ∧ calls m code = [Call m [Literal v]].
Proof.
  intros Hin c code Hcode.
  pose proof (to_code_settings c code Hcode) as Hall.
  rewrite Forall_forall in Hall. exact (Hall (m, k) Hin).
Qed.






(** ** From the configuration to the driver *)

Section Reach.
Context {E : Env}.

Lemma ensure_list_switches v out :
  ensure_list (use_id Switch) v = Valid out →
  ∃ ids, out = VList ids
    ∧ Forall is_switch_id ids
    ∧ length ids = listed_switches v.
Proof.
  assert (Hone : ∀ x y, use_id Switch x = Valid y → is_switch_id y).
  { intros x y Hy. by apply use_id_Valid in Hy. }
  unfold ensure_list, cbind, check_not_templatable, listed_switches.
  destruct v as [| | | | |items|[|]| | | |]; try discriminate;
    try (destruct (use_id Switch _) as [y|] eqn:Hy; [| discriminate];
         intros [= <-]; exists [y]; split; [done |]; split; [| done];
         constructor; [by eapply Hone | constructor]);
    try (intros [= <-]; exists []; split; [done |]; split; [constructor | done]).
  destruct (validate_each (use_id Switch) items) as [ys|] eqn:Hys; [| discriminate].
  intros [= <-]. exists ys. split; [done |].
  apply validate_each_Valid in Hys.
  split; [| by apply Forall2_length in Hys].
  induction Hys; constructor; eauto.
Qed.

End Reach.





(** X5.  For an accepted configuration with an [interlock], the
    configuration holds a list of identifiers of switches, as many as the
    user listed (a bare identifier counts as a list of one, an empty
    value as an empty list), and [to_code] calls [set_interlock] once
    with the variables of these identifiers in the same order.  Without
    [interlock] it does not call [set_interlock]. *)
Theorem interlock_switches_reach_the_driver {E : Env} (raw out : gmap string value) :
  entity_checks_keep →
  CONFIG_SCHEMA raw = Ok out →
  ∃ code,
    to_code out = Ok code
    ∧ match raw !! CONF_INTERLOCK with
      | Some given =>
          ∃ ids, out !! CONF_INTERLOCK = Some (VList ids)
            ∧ Forall is_switch_id ids
            ∧ length ids = listed_switches given
            ∧ calls "set_interlock" code
                = [Call "set_interlock" [ListOf (map VariableOf ids)]]
      | None => calls "set_interlock" code = []
      end.
Proof.
  intros Hkeep Hok.
  destruct (accepted_to_code_returns raw out Hkeep Hok) as [code Hcode].
  exists code. split; [done |].
  pose proof (accepted_option raw out CONF_INTERLOCK _ Hkeep Hok
                ltac:(solenoid_option)) as Hopt.
  cbn [validator_of default_of marker_of] in Hopt.
  pose proof (to_code_interlock out code Hcode) as Hcalls.
  destruct (raw !! CONF_INTERLOCK) as [given|].
  - destruct Hopt as (v' & (ids & -> & Hids & Hlen)%ensure_list_switches & Hout).
    rewrite Hout in Hcalls. destruct Hcalls as (its & [= <-] & Hc).
    exists ids. eauto.
  - destruct Hopt as [_ Hnone]. by rewrite Hnone in Hcalls.
Qed.

Lemma single_interlock_valve_accepted :
  @CONFIG_SCHEMA AsciiEnv.env single_interlock_valve = Ok validated_ac_valve.
Proof. vm_cast_no_check (eq_refl (Ok validated_ac_valve)). Qed.

Lemma interlock_switches_reach_the_driver_witness :
  ∃ code,
    to_code validated_ac_valve = Ok code
    ∧ calls "set_interlock" code
        = [Call "set_interlock"
             [ListOf [VariableOf (VID (Some "front_lawn") false Switch)]]].
Proof.
  destruct (@interlock_switches_reach_the_driver AsciiEnv.env
              single_interlock_valve validated_ac_valve
              ascii_entity_checks_keep single_interlock_valve_accepted)
    as (code & Hcode & ids & Hids & _ & _ & Hcalls).
  vm_compute in Hids. injection Hids as <-.
  exists code. split; [exact Hcode | exact Hcalls].
Defined.

(** X6.  The numbers the driver is given are in range: for an accepted
    configuration [set_energise_duration_ms] receives an integer between
    10 and 3000, [set_dc_latch_redo_count] a value that stands for an
    integer between 1 and 5, and [set_dc_latch_redo_interval] an integer
    between 500 and 3000. *)
Theorem numbers_reach_the_driver_in_range {E : Env} (raw out : gmap string value) :
  entity_checks_keep →
  CONFIG_SCHEMA raw = Ok out →
  ∃ code duration count interval,
    to_code out = Ok code
    ∧ calls "set_energise_duration_ms" code
        = [Call "set_energise_duration_ms" [Literal (VInt duration)]]
    ∧ (10 ≤ duration ≤ 3000)%Z
    ∧ calls "set_dc_latch_redo_count" code
        = [Call "set_dc_latch_redo_count" [Literal count]]
    ∧ (∃ n, int_value count = Some n ∧ (1 ≤ n ≤ 5)%Z)
    ∧ calls "set_dc_latch_redo_interval" code
        = [Call "set_dc_latch_redo_interval" [Literal (VInt interval)]]
    ∧ (500 ≤ interval ≤ 3000)%Z.
Proof.
  intros Hkeep Hok.
  destruct (accepted_to_code_returns raw out Hkeep Hok) as [code Hcode].
  pose proof (λ k f, accepted_option raw out k f Hkeep Hok) as Hopt.
  assert (Hint : ∀ k mk min max,
            (k, Field mk (int_range min max)) ∈ solenoid_options →
            ∀ v, out !! k = Some v →
            ∃ n, int_value v = Some n ∧ (min ≤ n ≤ max)%Z).
  { intros k mk min max Hin v Hv. specialize (Hopt k _ Hin).
    cbn [validator_of] in Hopt.
    destruct (raw !! k).
    - destruct Hopt as (v' & (_ & Hr)%int_range_Valid & Hout).
      rewrite Hout in Hv. by injection Hv as <-.
    - destruct (default_of _).
      + destruct Hopt as (v' & (_ & Hr)%int_range_Valid & Hout).
        rewrite Hout in Hv. by injection Hv as <-.
      + destruct Hopt as [_ Hnone]. congruence. }
  destruct (settings_lookup "set_energise_duration_ms" CONF_ENERGISE_DURATION_MS
              ltac:(setting) out code Hcode) as (d & Hd & Hcd).
  destruct (settings_lookup "set_dc_latch_redo_count" CONF_DC_LATCH_REDO_COUNT
              ltac:(setting) out code Hcode) as (c & Hc & Hcc).
  destruct (settings_lookup "set_dc_latch_redo_interval" CONF_DC_LATCH_REDO_INTERVAL_MS
              ltac:(setting) out code Hcode) as (i & Hi & Hci).
  destruct (Hint _ _ 10%Z 3000%Z ltac:(solenoid_option) d Hd) as (nd & End & Hrd).
  destruct (Hint _ _ 1%Z 5%Z ltac:(solenoid_option) c Hc) as (nc & Enc & Hrc).
  destruct (Hint _ _ 500%Z 3000%Z ltac:(solenoid_option) i Hi) as (ni & Eni & Hri).
  assert (d = VInt nd) as ->.
  { destruct d; try discriminate; injection End as <-; [destruct b; simpl in Hrd; lia | done]. }
  assert (i = VInt ni) as ->.
  { destruct i; try discriminate; injection Eni as <-; [destruct b; simpl in Hri; lia | done]. }
  exists code, nd, c, ni. eauto 10.
Qed.

Lemma numbers_reach_the_driver_in_range_witness :
  ∃ code duration,
    to_code validated_latching_valve = Ok code
    ∧ calls "set_energise_duration_ms" code
        = [Call "set_energise_duration_ms" [Literal (VInt duration)]]
    ∧ (10 ≤ duration ≤ 3000)%Z.
Proof.
  destruct (@numbers_reach_the_driver_in_range AsciiEnv.env latching_valve
              validated_latching_valve ascii_entity_checks_keep
              latching_valve_accepted)
    as (code & d & c & i & Hcode & Hd & Hrange & _).
  exists code, d. split; [exact Hcode |]. split; [exact Hd | exact Hrange].
Defined.

(** X7.  The type reaches the driver as the member of [SolenoidType] that
    [SOLENOID_TYPE_OPTIONS] gives for its name: for an accepted
    configuration whose [solenoid_type] reads as the string [s],
    [set_solenoid_type] is called once, with the upper-case form of [s]
    and the member listed for it. *)
Theorem solenoid_type_reaches_the_driver {E : Env} (raw out : gmap string value) :
  entity_checks_keep →
  CONFIG_SCHEMA raw = Ok out →
  ∃ code given s member,
    to_code out = Ok code
    ∧ raw !! CONF_SOLENOID_TYPE = Some given
    ∧ string_ given = Valid s
    ∧ (str_upper s, member) ∈ SOLENOID_TYPE_OPTIONS
    ∧ calls "set_solenoid_type" code
        = [Call "set_solenoid_type" [Literal (VEnum (str_upper s) member)]].
Proof.
  intros Hkeep Hok.
  destruct (accepted_to_code_returns raw out Hkeep Hok) as [code Hcode].
  pose proof (accepted_option raw out CONF_SOLENOID_TYPE _ Hkeep Hok
                ltac:(solenoid_option)) as Hopt.
  cbn [validator_of default_of marker_of] in Hopt.
  destruct (raw !! CONF_SOLENOID_TYPE) as [given|]; [| by destruct Hopt as [[] _]].
  destruct Hopt as (v' & (s & t & Hs & Ht & ->)%enum_Valid & Hout).
  destruct (settings_lookup "set_solenoid_type" CONF_SOLENOID_TYPE
              ltac:(setting) out code Hcode) as (v & Hv & Hc).
  exists code, given, s, t. rewrite Hout in Hv. injection Hv as <-. eauto 10.
Qed.

Lemma solenoid_type_reaches_the_driver_witness :
  ∃ code member,
    to_code validated_latching_valve = Ok code
    ∧ (@str_upper AsciiEnv.env "dc_latching", member) ∈ SOLENOID_TYPE_OPTIONS
    ∧ calls "set_solenoid_type" code
        = [Call "set_solenoid_type"
             [Literal (VEnum (@str_upper AsciiEnv.env "dc_latching") member)]].
Proof.
  destruct (@solenoid_type_reaches_the_driver AsciiEnv.env latching_valve
              validated_latching_valve ascii_entity_checks_keep
              latching_valve_accepted)
    as (code & given & s & member & Hcode & Hgiven & Hs & Hin & Hcalls).
  vm_compute in Hgiven. injection Hgiven as <-. injection Hs as <-.
  exists code, member. split; [exact Hcode |]. split; [exact Hin | exact Hcalls].
Defined.





(** X10.  A name that is neither an option of the component, nor
    [setup_priority], nor an option of the switch schema is refused: a
    configuration that holds one makes [CONFIG_SCHEMA] raise [Invalid]. *)
Theorem unknown_option_is_refused {E : Env} (raw : gmap string value) k v :
  raw !! k = Some v →
  k ∉ solenoid_names →
  k ≠ CONF_SETUP_PRIORITY →
  schema (switch_schema SolenoidSwitch) !! k = None →
  is_invalid (CONFIG_SCHEMA raw).
Proof.
  intros Hraw Hk Hne Hsw.
  assert (schema solenoid_schema !! k = None) as Hnone.
  { unfold solenoid_schema, extend, COMPONENT_SCHEMA. cbn [schema].
    rewrite lookup_union_r by (by apply lookup_singleton_ne).
    rewrite lookup_union_r by (by apply not_elem_of_list_to_map_1). done. }
  destruct (validate_mapping (schema solenoid_schema) raw) as [out0|m] eqn:Hmap;
    [| exists m; by apply CONFIG_SCHEMA_mapping_Bad].
  apply validate_mapping_Valid in Hmap as (Hitems & _ & _).
  destruct (Hitems k v (with_defaults_given _ _ _ _ Hraw)) as [v' Hv'].
  unfold validated_item, validate_item in Hv'. rewrite Hnone in Hv'. discriminate.
Qed.

Lemma unknown_option_is_refused_witness :
  is_invalid (@CONFIG_SCHEMA AsciiEnv.env misspelt_valve).
Proof.
  apply (@unknown_option_is_refused AsciiEnv.env misspelt_valve
           "pin_c"%string (VStr "bridge_c")).
  - reflexivity.
  - apply (bool_decide_unpack _). vm_compute. reflexivity.
  - discriminate.
  - reflexivity.
Defined.

(** X11.  The two power levels reach the driver as [cv.percentage]
    returns them: for an accepted configuration
    [set_energise_power_percent] and [set_hold_power_percent] are each
    called once, with what [cv.percentage] makes of the value given, or
    of "95%" and "55%" when none is given. *)
Theorem power_levels_reach_the_driver {E : Env} (raw out : gmap string value) :
  entity_checks_keep →
  CONFIG_SCHEMA raw = Ok out →
  ∃ code energise hold,
    to_code out = Ok code
    ∧ percentage (default (VStr "95%") (raw !! CONF_ENERGISE_POWER_PERCENT))
        = Valid energise
    ∧ percentage (default (VStr "55%") (raw !! CONF_HOLD_POWER_PERCENT))
        = Valid hold
    ∧ calls "set_energise_power_percent" code
        = [Call "set_energise_power_percent" [Literal energise]]
    ∧ calls "set_hold_power_percent" code
        = [Call "set_hold_power_percent" [Literal hold]].
Proof.
  intros Hkeep Hok.
  destruct (accepted_to_code_returns raw out Hkeep Hok) as [code Hcode].
  pose proof (λ k f, accepted_option raw out k f Hkeep Hok) as Hopt.
  destruct (settings_lookup "set_energise_power_percent" CONF_ENERGISE_POWER_PERCENT
              ltac:(setting) out code Hcode) as (e & He & Hce).
  destruct (settings_lookup "set_hold_power_percent" CONF_HOLD_POWER_PERCENT
              ltac:(setting) out code Hcode) as (h & Hh & Hch).
  pose proof (Hopt CONF_ENERGISE_POWER_PERCENT _ ltac:(solenoid_option)) as Hen.
  pose proof (Hopt CONF_HOLD_POWER_PERCENT _ ltac:(solenoid_option)) as Hho.
  cbn [validator_of default_of marker_of] in Hen, Hho.
  exists code, e, h. split; [done |].
  split; [| split; [| done]].
  - destruct (raw !! CONF_ENERGISE_POWER_PERCENT);
      destruct Hen as (e' & He' & Hout); simpl; congruence.
  - destruct (raw !! CONF_HOLD_POWER_PERCENT);
      destruct Hho as (h' & Hh' & Hout); simpl; congruence.
Qed.

Lemma gentle_valve_accepted :
  @CONFIG_SCHEMA AsciiEnv.env gentle_valve = Ok validated_gentle_valve.
Proof. vm_cast_no_check (eq_refl (Ok validated_gentle_valve)). Qed.

Lemma power_levels_reach_the_driver_witness :
  ∃ code,
    to_code validated_gentle_valve = Ok code
    ∧ calls "set_energise_power_percent" code
        = [Call "set_energise_power_percent" [Literal (VFloat 0.80)]]
    ∧ calls "set_hold_power_percent" code
        = [Call "set_hold_power_percent" [Literal (VFloat 0.55)]].
Proof.
  destruct (@power_levels_reach_the_driver AsciiEnv.env gentle_valve
              validated_gentle_valve ascii_entity_checks_keep
              gentle_valve_accepted)
    as (code & e & h & Hcode & [= <-] & [= <-] & He & Hh).
  exists code. split; [exact Hcode |]. split; [exact He | exact Hh].
Defined.
